(** * FreeDView tester: discovery, comparison and reporting

    A shallow embedding of the parts of [jsonLocalizer.py],
    [renderCompare.py] and [freeDViewRunner.py] that decide the
    testable properties of the pipeline, followed by the theorems.

    Conventions.
    - Python [str] values are [string]s (sequences of 8-bit characters).
    - Python [int]s are unbounded: [Z], or [nat]/[N] for lengths and
      counters that start non-negative and only grow.
    - A call that may raise returns a [result]; [Raise e] is the
      exception escaping the call.
    - [os.path] is modelled by its POSIX flavour on ['/']-separated
      strings, [pathlib.Path] by the list of its components. *)

From Stdlib Require Import List Bool Arith ZArith NArith QArith Lia.
From Stdlib Require Import Ascii String DecimalString DecimalN DecimalPos.
Import ListNotations.

Local Open Scope string_scope.
Local Open Scope list_scope.

(** ** Exceptions *)

(** [LoopFuelExhausted] is not a Python exception: it marks a [while]
    loop of the model that ran out of its iteration budget (shown
    unreachable below). *)
Inductive exn : Type :=
| ValueError
| IndexError
| OSError
| IOError
| LoopFuelExhausted.

Inductive result (A : Type) : Type :=
| Ok (a : A)
| Raise (e : exn).

Arguments Ok {A} a.
Arguments Raise {A} e.

Definition bind {A B : Type} (r : result A) (k : A -> result B) : result B :=
  match r with
  | Ok a => k a
  | Raise e => Raise e
  end.

Notation "x <- r ;; k" := (bind r (fun x => k))
  (at level 61, r at next level, right associativity).

(** ** Python string primitives *)

(** [s[x]] for a non-negative index: [IndexError] out of range. *)
Definition str_index (s : string) (x : nat) : result ascii :=
  match String.get x s with
  | Some c => Ok c
  | None => Raise IndexError
  end.

(** The literal set [{'0', ..., '9'}]. *)
Definition in_digits (c : ascii) : bool :=
  let n := nat_of_ascii c in (48 <=? n)%nat && (n <=? 57)%nat.

Definition slash : ascii := "/"%char.
Definition hash : ascii := "#"%char.

(** [posixpath.basename]: what follows the last ['/'] ([p[p.rfind('/')+1:]]). *)
Fixpoint basename (p : string) : string :=
  match p with
  | EmptyString => EmptyString
  | String c rest =>
      if existsb (Ascii.eqb slash) (list_ascii_of_string rest) then basename rest
      else if Ascii.eqb c slash then rest
      else p
  end.

(** [s.split(sep)] for a one-character separator: one more piece than
    there are occurrences of [sep], never an empty list. *)
Fixpoint split_on (sep : ascii) (s : string) : list string :=
  match s with
  | EmptyString => [EmptyString]
  | String c rest =>
      if Ascii.eqb c sep then EmptyString :: split_on sep rest
      else match split_on sep rest with
           | piece :: pieces => String c piece :: pieces
           | [] => [String c EmptyString]
           end
  end.

(** [s.split(sep)] for a separator of several characters: occurrences are
    taken left to right without overlap.  [skip] counts the characters of
    a separator still to be passed, [cur] holds the current piece,
    reversed. *)
Fixpoint is_prefix (p s : string) : bool :=
  match p, s with
  | EmptyString, _ => true
  | String a p', String b s' => Ascii.eqb a b && is_prefix p' s'
  | String _ _, EmptyString => false
  end.

Definition string_rev (cs : list ascii) : string :=
  string_of_list_ascii (rev cs).

Fixpoint split_str_aux (sep s : string) (skip : nat) (cur : list ascii)
  : list string :=
  match s with
  | EmptyString => [string_rev cur]
  | String c rest =>
      match skip with
      | S k => split_str_aux sep rest k cur
      | O =>
          if is_prefix sep s
          then string_rev cur
                 :: split_str_aux sep rest (String.length sep - 1) []
          else split_str_aux sep rest 0 (c :: cur)
      end
  end.

Definition split_str (sep s : string) : list string := split_str_aux sep s 0 [].

(** [s.replace('\\', '/')]. *)
Definition backslash : ascii := ascii_of_nat 92.

Fixpoint replace_backslash (s : string) : string :=
  match s with
  | EmptyString => EmptyString
  | String c rest =>
      String (if Ascii.eqb c backslash then slash else c) (replace_backslash rest)
  end.

Fixpoint ends_with_slash (s : string) : bool :=
  match s with
  | EmptyString => false
  | String c EmptyString => Ascii.eqb c slash
  | String _ rest => ends_with_slash rest
  end.

(** [posixpath.join(a, b)]. *)
Definition path_join (a b : string) : string :=
  match b with
  | String "/" _ => b
  | _ => match a with
         | EmptyString => b
         | _ => if ends_with_slash a then a ++ b else a ++ "/" ++ b
         end
  end.

(** ** Python integers and their text *)

Definition underscore : ascii := "_"%char.
Definition zero_char : ascii := "0"%char.

(** Characters [int()] treats as surrounding white space (code points
    below 256): tab to carriage return, the blank, NEL and the no-break
    space.  The separators 28 to 31, which [str.strip] removes, are not
    among them. *)
Definition is_space (c : ascii) : bool :=
  let n := nat_of_ascii c in
  ((9 <=? n)%nat && (n <=? 13)%nat) || (n =? 32)%nat ||
  (n =? 133)%nat || (n =? 160)%nat.

Fixpoint lstrip (s : string) : string :=
  match s with
  | String c rest => if is_space c then lstrip rest else s
  | EmptyString => EmptyString
  end.

Fixpoint rstrip (s : string) : string :=
  match s with
  | EmptyString => EmptyString
  | String c rest =>
      match rstrip rest with
      | EmptyString => if is_space c then EmptyString else String c EmptyString
      | rest' => String c rest'
      end
  end.

Definition strip (s : string) : string := rstrip (lstrip s).

(** The digit groups of an integer literal: decimal digits, a single
    ['_'] allowed between two digits.  Returns the digits alone. *)
Fixpoint digit_groups (s : string) (after_digit : bool) : option string :=
  match s with
  | EmptyString => if after_digit then Some EmptyString else None
  | String c rest =>
      if in_digits c then
        match digit_groups rest true with
        | Some ds => Some (String c ds)
        | None => None
        end
      else if Ascii.eqb c underscore && after_digit then digit_groups rest false
      else None
  end.

Definition digits_value (body : string) : option N :=
  match digit_groups body false with
  | Some ds =>
      match NilEmpty.uint_of_string ds with
      | Some d => Some (N.of_uint d)
      | None => None
      end
  | None => None
  end.

Definition minus_char : ascii := "-"%char.
Definition plus_char : ascii := "+"%char.

Definition value_or_error (v : option N) (negative : bool) : result Z :=
  match v with
  | Some n => Ok (if negative then (- Z.of_N n)%Z else Z.of_N n)
  | None => Raise ValueError
  end.

(** [int(s)] in base 10: white space around, an optional sign, digit
    groups; [ValueError] otherwise.  Integers are unbounded: the limit
    the interpreter sets on the number of digits of a text
    ([sys.set_int_max_str_digits]) is a setting of the interpreter and
    is not part of this model. *)
Definition py_int (s : string) : result Z :=
  match strip s with
  | EmptyString => Raise ValueError
  | String c body =>
      if Ascii.eqb c minus_char then value_or_error (digits_value body) true
      else if Ascii.eqb c plus_char then value_or_error (digits_value body) false
      else value_or_error (digits_value (String c body)) false
  end.

(** [str(n)] for a natural number and for an integer. *)
Definition str_N (n : N) : string := NilZero.string_of_uint (N.to_uint n).

Definition str_int (z : Z) : string :=
  match z with
  | Zneg p => String "-" (str_N (Npos p))
  | _ => str_N (Z.to_N z)
  end.

Fixpoint zeros (k : nat) : string :=
  match k with
  | O => EmptyString
  | S k' => String zero_char (zeros k')
  end.

(** [s.zfill(width)]: zeros go after a leading sign. *)
Definition zfill (width : nat) (s : string) : string :=
  if (width <=? String.length s)%nat then s
  else
    let pad := zeros (width - String.length s) in
    match s with
    | String c rest =>
        if Ascii.eqb c minus_char || Ascii.eqb c plus_char
        then String c (pad ++ rest)
        else pad ++ s
    | EmptyString => pad
    end.

Fixpoint all_digits (s : string) : bool :=
  match s with
  | EmptyString => true
  | String c rest => in_digits c && all_digits rest
  end.

(** ** The file system seen through [pathlib] and [os.path]

    A [Path] is the list of its components below the root of the model;
    the empty path is that root and always a directory.  A file system
    lists its entries in enumeration order, the order [iterdir] reports. *)

Definition path : Type := list string.

Inductive kind : Type := Dir | File.

Definition filesystem : Type := list (path * kind).

Definition path_eqb (p q : path) : bool :=
  if list_eq_dec string_dec p q then true else false.

Definition kind_of (fs : filesystem) (p : path) : option kind :=
  match p with
  | [] => Some Dir
  | _ => match find (fun e => path_eqb (fst e) p) fs with
         | Some e => Some (snd e)
         | None => None
         end
  end.

Definition path_exists (fs : filesystem) (p : path) : bool :=
  match kind_of fs p with Some _ => true | None => false end.

Definition is_dir (fs : filesystem) (p : path) : bool :=
  match kind_of fs p with Some Dir => true | _ => false end.

(** [Path.parent], [Path.name], [Path / name] and [str(Path)]. *)
Definition parent (p : path) : path := removelast p.
Definition name (p : path) : string := last p EmptyString.
Definition child (p : path) (n : string) : path := p ++ [n].
Definition path_str (p : path) : string := String.concat "/" p.

Notation "p // n" := (child p n) (at level 40, left associativity).

(** [Path.iterdir()], drained into a list when the loop starts. *)
Definition iterdir (fs : filesystem) (d : path) : result (list path) :=
  if is_dir fs d then
    Ok (map fst (filter (fun e => match fst e with
                                  | [] => false
                                  | _ => path_eqb (parent (fst e)) d
                                  end) fs))
  else Raise OSError.

(** [Path.mkdir(parents=True, exist_ok=True)]: every missing ancestor is
    created, an existing directory is kept, a file in the way raises. *)
Fixpoint mkdir_from (fs : filesystem) (done todo : path) : result filesystem :=
  match todo with
  | [] => Ok fs
  | c :: todo' =>
      let p := done // c in
      if is_dir fs p then mkdir_from fs p todo'
      else if path_exists fs p then Raise OSError
      else mkdir_from (fs ++ [(p, Dir)]) p todo'
  end.

Definition mkdir_parents (fs : filesystem) (p : path) : result filesystem :=
  mkdir_from fs [] p.

(** ** jsonLocalizer.py: [JsonLocalizer] *)

Module Localizer.

(** The [for x in range(len(event_name_set_test))] loop with its [break];
    the accumulator is [match_count]. *)
Fixpoint is_event_loop (event_name_set_test split_path : string)
    (xs : list nat) (match_count : nat) : result nat :=
  match xs with
  | [] => Ok match_count
  | x :: xs' =>
      p <- str_index event_name_set_test x ;;
      c <- str_index split_path x ;;
      if Ascii.eqb p c then
        is_event_loop event_name_set_test split_path xs' (match_count + 1)
      else if Ascii.eqb p hash && in_digits c then
        is_event_loop event_name_set_test split_path xs' (match_count + 1)
      else Ok match_count
  end.

Definition is_event (event_name_set_test test_path : string) : result bool :=
  let split_path := basename test_path in
  if (String.length split_path <? String.length event_name_set_test)%nat then Ok false
  else
    match_count <- is_event_loop event_name_set_test split_path
                     (seq 0 (String.length event_name_set_test)) 0 ;;
    Ok (20 <=? match_count)%nat.

(** The specification's reading: a pattern position matches a basename
    character when both are equal or the pattern has ['#'] and the
    basename a decimal digit. *)
Definition position_matches (p c : ascii) : Prop :=
  p = c \/ (p = hash /\ in_digits c = true).

(** [n] is the length of the longest prefix on which pattern and
    basename match position by position. *)
Definition longest_matching_prefix (P B : string) (n : nat) : Prop :=
  (forall i, (i < n)%nat ->
     exists p c, String.get i P = Some p /\ String.get i B = Some c /\
                 position_matches p c) /\
  (String.get n P = None \/ String.get n B = None \/
   exists p c, String.get n P = Some p /\ String.get n B = Some c /\
               ~ position_matches p c).

(** *** The localizer object: the file system it works on and its two
    disambiguation counters *)

Record localizer : Type := mk_localizer {
  fs : filesystem;
  sport_folder_index : N;
  stadium_folder_index : N
}.

Definition set_fs (st : localizer) (fs' : filesystem) : localizer :=
  mk_localizer fs' (sport_folder_index st) (stadium_folder_index st).
Definition set_sport_folder_index (st : localizer) (i : N) : localizer :=
  mk_localizer (fs st) i (stadium_folder_index st).
Definition set_stadium_folder_index (st : localizer) (i : N) : localizer :=
  mk_localizer (fs st) (sport_folder_index st) i.

(** A method of the object: reads and updates it, or raises. *)
Definition M (A : Type) : Type := localizer -> result (A * localizer).

Definition ret {A : Type} (a : A) : M A := fun st => Ok (a, st).

Definition mbind {A B : Type} (m : M A) (k : A -> M B) : M B :=
  fun st => match m st with
            | Ok (a, st') => k a st'
            | Raise e => Raise e
            end.

Definition lift {A : Type} (r : result A) : M A :=
  fun st => match r with Ok a => Ok (a, st) | Raise e => Raise e end.

Notation "x <~ m ;; k" := (mbind m (fun x => k))
  (at level 61, m at next level, right associativity).

(** The placeholder directory tested and created for index [i]:
    [stadiumName_i/categoryName] beside an event found at stadium level,
    [sportType_i/stadiumName/categoryName] beside one found at the top. *)
Definition stadium_placeholder (parent_dir : path) (i : N) : path :=
  parent_dir // ("stadiumName_" ++ str_N i) // "categoryName".

Definition sport_placeholder (parent_dir : path) (i : N) : path :=
  parent_dir // ("sportType_" ++ str_N i) // "stadiumName" // "categoryName".

(** [while placeholder(index).exists(): index += 1], at most [fuel] tests. *)
Fixpoint skip_existing (fuel : nat) (fs0 : filesystem)
    (placeholder : N -> path) (index : N) : option N :=
  match fuel with
  | O => None
  | S fuel' =>
      if path_exists fs0 (placeholder index)
      then skip_existing fuel' fs0 placeholder (index + 1)%N
      else Some index
  end.


Definition create_extra_folder (parent_path : path) (drilling_depth : nat)
  : M path :=
  fun st =>
    let event_only := name parent_path in
    let parent_dir := parent parent_path in
    match drilling_depth with
    | 2%nat =>
        match skip_existing (S (List.length (fs st))) (fs st)
                (stadium_placeholder parent_dir) (stadium_folder_index st) with
        | None => Raise LoopFuelExhausted
        | Some i =>
            let new_folder_path := stadium_placeholder parent_dir i in
            fs' <- mkdir_parents (fs st) new_folder_path ;;
            Ok (new_folder_path // event_only,
                set_fs (set_stadium_folder_index st i) fs')
        end
    | 3%nat =>
        match skip_existing (S (List.length (fs st))) (fs st)
                (sport_placeholder parent_dir) (sport_folder_index st) with
        | None => Raise LoopFuelExhausted
        | Some i =>
            let new_folder_path := sport_placeholder parent_dir i in
            fs' <- mkdir_parents (fs st) new_folder_path ;;
            Ok (new_folder_path // event_only,
                set_fs (set_sport_folder_index st i) fs')
        end
    | _ => Ok (parent_path, st)
    end.

(** [_traverse_stadium]: the first category-level directory that is an
    event. *)
Fixpoint traverse_stadium_loop (fs0 : filesystem) (event_name_set_test : string)
    (items : list path) : result (option path) :=
  match items with
  | [] => Ok None
  | category_item :: rest =>
      if negb (is_dir fs0 category_item)
      then traverse_stadium_loop fs0 event_name_set_test rest
      else
        e <- is_event event_name_set_test (path_str category_item) ;;
        if e then Ok (Some category_item)
        else traverse_stadium_loop fs0 event_name_set_test rest
  end.

Definition traverse_stadium (stadium_path : path) (event_name_set_test : string)
  : M (option path) :=
  fun st =>
    items <- iterdir (fs st) stadium_path ;;
    r <- traverse_stadium_loop (fs st) event_name_set_test items ;;
    Ok (r, st).

(** [_traverse_sport_type]: returns at the first stadium-level directory
    that is an event or holds one. *)
Fixpoint traverse_sport_type_loop (event_name_set_test : string)
    (create_folders : bool) (items : list path) : M (option path) :=
  match items with
  | [] => ret None
  | stadium_item :: rest =>
      fun st =>
        if negb (is_dir (fs st) stadium_item)
        then traverse_sport_type_loop event_name_set_test create_folders rest st
        else
          match is_event event_name_set_test (path_str stadium_item) with
          | Raise e => Raise e
          | Ok false =>
              (event_path <~ traverse_stadium stadium_item event_name_set_test ;;
               match event_path with
               | Some _ => ret event_path
               | None => traverse_sport_type_loop event_name_set_test
                           create_folders rest
               end) st
          | Ok true =>
              if create_folders then
                (new_folder_path <~ create_extra_folder stadium_item 2 ;;
                 ret (Some new_folder_path)) st
              else Ok (Some stadium_item, st)
          end
  end.

Definition traverse_sport_type (sport_type_path : path)
    (event_name_set_test : string) (create_folders : bool) : M (option path) :=
  fun st =>
    match iterdir (fs st) sport_type_path with
    | Raise e => Raise e
    | Ok items =>
        traverse_sport_type_loop event_name_set_test create_folders items st
    end.

(** The first loop of [get_json_files]: one pass over the entries of the
    base path, collecting [event_path_list]. *)
Fixpoint find_events_loop (event_name_set_test : string) (create_folders : bool)
    (items : list path) (event_path_list : list path) : M (list path) :=
  match items with
  | [] => ret event_path_list
  | item :: rest =>
      fun st =>
        if negb (is_dir (fs st) item)
        then find_events_loop event_name_set_test create_folders rest
               event_path_list st
        else
          let st := set_stadium_folder_index st 1 in
          match is_event event_name_set_test (path_str item) with
          | Raise e => Raise e
          | Ok false =>
              (event_path <~ traverse_sport_type item event_name_set_test
                               create_folders ;;
               match event_path with
               | Some ep => find_events_loop event_name_set_test create_folders
                              rest (event_path_list ++ [ep])
               | None => find_events_loop event_name_set_test create_folders
                           rest event_path_list
               end) st
          | Ok true =>
              (event_path <~ (if create_folders
                              then create_extra_folder item 3
                              else ret item) ;;
               find_events_loop event_name_set_test create_folders rest
                 (event_path_list ++ [event_path])) st
          end
  end.

(** One row of the six parallel lists [get_json_files] returns. *)
Record frame_unit : Type := mk_frame_unit {
  folder_set : path;
  folder_frame : path;
  frame_name : string;
  json_folder : path;
  json_file : string;
  event_with_set_path : path
}.

(** The test on a frame directory's name: [frame_name.split('F')] has two
    pieces and [int] accepts the last one. *)
Definition frame_name_ok (frame_name0 : string) : bool :=
  let split_string := split_on "F" frame_name0 in
  if (List.length split_string =? 2)%nat then
    match py_int (last split_string EmptyString) with
    | Ok _ => true
    | Raise _ => false
    end
  else false.

(** The body of the innermost loop: is this entry of a set folder
    catalogued? *)
Definition frame_qualifies (fs0 : filesystem) (frame_item : path) : bool :=
  is_dir fs0 frame_item &&
  frame_name_ok (name frame_item) &&
  path_exists fs0 (frame_item // "Render" // "Json" // "standAloneRender.json").

(** The rows a set folder contributes.  The file whose existence is
    tested is [json_folder/standAloneRender.json]; what goes into the
    [json_file] column is its text after [replace('\\', '/')]. *)
Definition frames_of_set (fs0 : filesystem) (event_path set_item : path)
    (frame_items : list path) : list frame_unit :=
  map (fun frame_item =>
         let json_folder0 := frame_item // "Render" // "Json" in
         let json_file0 := path_str (json_folder0 // "standAloneRender.json") in
         mk_frame_unit set_item frame_item (name frame_item) json_folder0
           (replace_backslash json_file0) event_path)
      (filter (frame_qualifies fs0) frame_items).

Fixpoint sets_loop (fs0 : filesystem) (event_path : path)
    (set_items : list path) : result (list frame_unit) :=
  match set_items with
  | [] => Ok []
  | set_item :: rest =>
      if negb (is_dir fs0 set_item) then sets_loop fs0 event_path rest
      else
        frame_items <- iterdir fs0 set_item ;;
        more <- sets_loop fs0 event_path rest ;;
        Ok (frames_of_set fs0 event_path set_item frame_items ++ more)
  end.

Fixpoint events_loop (fs0 : filesystem) (event_path_list : list path)
  : result (list frame_unit) :=
  match event_path_list with
  | [] => Ok []
  | event_path :: rest =>
      if negb (path_exists fs0 event_path) then events_loop fs0 rest
      else
        set_items <- iterdir fs0 event_path ;;
        here <- sets_loop fs0 event_path set_items ;;
        more <- events_loop fs0 rest ;;
        Ok (here ++ more)
  end.

Definition get_json_files (json_file_path : path) (event_name_set_test : string)
    (set_name_set_test : string) (create_folders : bool) : M (list frame_unit) :=
  fun st =>
    let st := set_sport_folder_index st 1 in
    if negb (path_exists (fs st) json_file_path) then Ok ([], st)
    else
      match iterdir (fs st) json_file_path with
      | Raise e => Raise e
      | Ok items =>
          (event_path_list <~ find_events_loop event_name_set_test
                                create_folders items [] ;;
           fun st' =>
             units <- events_loop (fs st') event_path_list ;;
             Ok (units, st')) st
      end.

(** The specification's reading of a frame name: the letter [F] and then
    decimal digits, at least one. *)
Definition is_F_digits (frame_name0 : string) : bool :=
  match frame_name0 with
  | String "F" ((String _ _) as ds) => all_digits ds
  | _ => false
  end.


(** *** Test trees *)

Definition event_pattern : string := "E##_##_##_##_##_##__".
Definition event_dir : string := "E12_34_56_78_90_12__".

(** A frame directory with its descriptor file. *)
Definition frame_tree (set_dir : path) (frame : string) : filesystem :=
  [ (set_dir // frame, Dir);
    (set_dir // frame // "Render", Dir);
    (set_dir // frame // "Render" // "Json", Dir);
    (set_dir // frame // "Render" // "Json" // "standAloneRender.json", File) ].

(** One event directly under the base path, one set, three frame
    directories [F42], [XF42] and [F4a], each with a descriptor. *)
Definition shallow_tree : filesystem :=
  [ (["testSets"], Dir);
    (["testSets"; event_dir], Dir);
    (["testSets"; event_dir; "Set1"], Dir) ]
  ++ frame_tree ["testSets"; event_dir; "Set1"] "F42"
  ++ frame_tree ["testSets"; event_dir; "Set1"] "XF42"
  ++ frame_tree ["testSets"; event_dir; "Set1"] "F4a".

Definition fresh_localizer (fs0 : filesystem) : localizer :=
  mk_localizer fs0 1 1.

End Localizer.

(** ** renderCompare.py *)

Module Compare.

(** *** Floating-point values

    A metric is kept as the exact rational it stands for; [PosInf] and
    [NaN] are what a numpy division by zero leaves.  On 8-bit images the
    squared differences and their sum are integers a double holds
    exactly, and the one rounding of the final division keeps zero at
    zero, a positive value positive and equal quotients equal. *)
Inductive fval : Type :=
| Finite (q : Q)
| PosInf
| NaN.

Definition float_div (num den : Z) : fval :=
  if (den =? 0)%Z then (if (num =? 0)%Z then NaN else PosInf)
  else Finite (num # Z.to_pos den).

Definition is_finite (v : fval) : Prop :=
  match v with Finite _ => True | _ => False end.

(** [a < b] on floats. *)
Definition flt (a b : fval) : bool :=
  match a, b with
  | Finite x, Finite y => negb (Qle_bool y x)
  | Finite _, PosInf => true
  | _, _ => false
  end.

(** [min(l)] and [max(l)]: the first extremal element; [ValueError] on
    an empty list. *)
Definition py_min (l : list fval) : result fval :=
  match l with
  | [] => Raise ValueError
  | x :: rest => Ok (fold_left (fun m y => if flt y m then y else m) rest x)
  end.

Definition py_max (l : list fval) : result fval :=
  match l with
  | [] => Raise ValueError
  | x :: rest => Ok (fold_left (fun m y => if flt m y then y else m) rest x)
  end.

(** *** Images

    A single-channel image is a [rows] x [cols] array stored row by row;
    a frame read by [cv2.imread] is a [rows] x [cols] x 3 array of
    (blue, green, red) samples. *)
Record gray_image : Type := mk_gray {
  rows : nat;
  cols : nat;
  pixels : list Z
}.

Record bgr_image : Type := mk_bgr {
  frame_rows : nat;
  frame_cols : nat;
  frame_pixels : list (Z * Z * Z)
}.

Definition shape (a : gray_image) : nat * nat := (rows a, cols a).
Definition frame_shape (a : bgr_image) : nat * nat * nat :=
  (frame_rows a, frame_cols a, 3%nat).

Definition shape_eqb (a b : gray_image) : bool :=
  (rows a =? rows b)%nat && (cols a =? cols b)%nat.

Definition frame_shape_eqb (a b : bgr_image) : bool :=
  (frame_rows a =? frame_rows b)%nat && (frame_cols a =? frame_cols b)%nat.

(** An 8-bit single-channel image with at least one pixel. *)
Definition is_gray_image (a : gray_image) : Prop :=
  (0 < rows a)%nat /\ (0 < cols a)%nat /\
  List.length (pixels a) = (rows a * cols a)%nat /\
  Forall (fun v => (0 <= v <= 255)%Z) (pixels a).

(** [np.sum((a.astype("float") - b.astype("float")) ** 2)].  The sum is
    taken over the integers: it is the float sum where every difference,
    square and partial sum is an integer a double holds exactly, as on
    8-bit samples with a sum below 2^53. *)
Definition sum_squared_diff (xs ys : list Z) : Z :=
  fold_right Z.add 0%Z (map (fun xy => (fst xy - snd xy) ^ 2)%Z (combine xs ys)).

Definition mean_squared_error (image_a image_b : gray_image) : result fval :=
  if negb (shape_eqb image_a image_b) then Raise ValueError
  else
    let err := sum_squared_diff (pixels image_a) (pixels image_b) in
    Ok (float_div err (Z.of_nat (rows image_a * cols image_a))).

(** *** What lies outside the module: the disk and the image libraries *)
Record world : Type := mk_world {
  (** [cv2.imread]: [None] when the file cannot be read. *)
  imread : string -> option bgr_image;
  (** The luminance [cv2.cvtColor(_, COLOR_BGR2GRAY)] gives a sample. *)
  luminance : Z * Z * Z -> Z;
  (** [skimage]'s [structural_similarity]; it may raise. *)
  ssim : gray_image -> gray_image -> result Q;
  (** Everything after the metrics for one pair: difference image,
      colour map, threshold, alpha image and the two [cv2.imwrite]s to
      the given paths; it may raise. *)
  save_artifacts : string -> string -> gray_image -> gray_image -> result unit;
  (** [Path.mkdir(parents=True, exist_ok=True)] on a path. *)
  mkdir : string -> result unit;
  (** [open(path, 'w')] and the write succeed. *)
  can_write : string -> bool;
  (** [os.path.exists]. *)
  exists_on_disk : string -> bool;
  (** [_collect_image_paths] on this disk: the sorted image paths of the
      two version folders and the folders themselves. *)
  collect_image_paths :
    string -> string -> string ->
    list string * list string * option string * option string
}.

(** [cv2.cvtColor(frame, cv2.COLOR_BGR2GRAY)]: total on the three-channel
    frames [cv2.imread] returns; the result keeps rows and columns. *)
Definition cvtColor (w : world) (frame : bgr_image) : gray_image :=
  mk_gray (frame_rows frame) (frame_cols frame)
          (map (luminance w) (frame_pixels frame)).

(** *** The report document [compareResult.xml]

    Text nodes written with [str(...)] of a number are kept as the
    number. *)
Record report : Type := mk_report {
  sourcePath : string;
  testPath : string;
  diffPath : string;
  alphaPath : string;
  origFreeDView : string;
  testFreedview : string;
  eventName : string;
  sportType : string;
  stadiumName : string;
  categoryName : string;
  startFrame : string;
  endFrame : string;
  minVal : fval;
  maxVal : fval;
  frames : list (Z * fval)
}.

Definition or_empty (s : option string) : string :=
  match s with Some v => v | None => EmptyString end.

Definition list_index {A : Type} (l : list A) (i : nat) : result A :=
  match nth_error l i with
  | Some a => Ok a
  | None => Raise IndexError
  end.

(** The body of the [try] block of [write_to_xml_file]. *)
Definition build_document (w : world) (result_xml_file : string)
    (ssim_list : list fval) (start_frame end_frame : string)
    (path_list : list string)
    (event_name freedview_name_orig freedview_name_tester : string)
    (sport_type stadium_name category_name : option string) : result report :=
  p0 <- list_index path_list 0 ;;
  p1 <- list_index path_list 1 ;;
  p3 <- list_index path_list 3 ;;
  p4 <- list_index path_list 4 ;;
  lo <- py_min ssim_list ;;
  hi <- py_max ssim_list ;;
  start <- py_int start_frame ;;
  let frame_entries :=
    map (fun x => (Z.of_nat x + start, nth x ssim_list NaN)%Z)
        (seq 0 (List.length ssim_list)) in
  if can_write w result_xml_file then
    Ok (mk_report p0 p1 p3 p4 freedview_name_orig freedview_name_tester
          event_name (or_empty sport_type) (or_empty stadium_name)
          (or_empty category_name) start_frame end_frame lo hi frame_entries)
  else Raise OSError.

(** [Ok r]: the document [r] was written; [Raise e]: [e] escapes and
    nothing was written. *)
Definition write_to_xml_file (w : world) (result_folder : string)
    (compare_type_list : list (list fval)) (start_frame end_frame : string)
    (path_list : list string)
    (event_name freedview_name_orig freedview_name_tester : string)
    (sport_type stadium_name category_name : option string) : result report :=
  if (List.length compare_type_list <? 2)%nat then Raise ValueError
  else
    let ssim_list := nth 1 compare_type_list [] in
    match ssim_list with
    | [] => Raise ValueError
    | _ =>
        let result_xml_file :=
          replace_backslash (path_join result_folder "compareResult.xml") in
        match build_document w result_xml_file ssim_list start_frame end_frame
                path_list event_name freedview_name_orig freedview_name_tester
                sport_type stadium_name category_name with
        | Ok r => Ok r
        | Raise _ => Raise IOError
        end
    end.

(** [_extract_metadata_from_path]:
    (event_name, sport_type, stadium_name, category_name). *)
Definition extract_metadata_from_path (result_folder : string)
  : string * string * string * string :=
  let result_structure := split_str "testSets_results" result_folder in
  if (List.length result_structure <? 2)%nat then ("", "", "", "")
  else
    let split_string :=
      filter (fun piece => negb (String.eqb piece ""))
             (split_on slash (nth 1 result_structure "")) in
    let at_ i := nth i split_string "" in
    let n := List.length split_string in
    if (n =? 5)%nat then (at_ 0%nat, "", "", "")
    else if (n =? 6)%nat then (at_ 1%nat, at_ 0%nat, "", "")
    else if (n =? 7)%nat then (at_ 2%nat, at_ 0%nat, at_ 1%nat, "")
    else if (8 <=? n)%nat then (at_ 3%nat, at_ 0%nat, at_ 1%nat, at_ 2%nat)
    else ("", "", "", "").

(** *** The comparison loop *)

(** The warnings and errors of [render_compare_do_it] that decide how a
    run ends or what a frame contributes.  The summary warning on the
    number of failed frames, logged before [NoValidComparisons], and the
    warnings of the artifact stage are not recorded. *)
Inductive log_event : Type :=
| EmptyImageLists
| ImageListLengthMismatch
| StartFrameUnreadable
| FolderNotCreated (folder : string)
| CouldNotReadImage (i : nat)
| DimensionMismatch (i : nat)
| MseFailed (i : nat)
| SsimFailed (i : nat)
| FrameError (i : nat)
| NoValidComparisons
| XmlReportFailed.


(** The locals the loop updates. *)
Record loop_state : Type := mk_loop {
  result_mse_list : list fval;
  result_ssim_list : list fval;
  failed_comparisons : nat;
  log : list log_event
}.

Definition loop_start : loop_state := mk_loop [] [] 0 [].

Definition skip_frame (acc : loop_state) (ev : log_event) : loop_state :=
  mk_loop (result_mse_list acc) (result_ssim_list acc)
          (failed_comparisons acc + 1) (log acc ++ [ev]).

(** The [try]/[except] around the SSIM call: 0.0 when it raises. *)
Definition ssim_or_zero (w : world) (source_frame_gr tested_frame_gr : gray_image)
  : fval :=
  match ssim w source_frame_gr tested_frame_gr with
  | Ok v => Finite v
  | Raise _ => Finite 0
  end.

(** The artifact stage for index [i]: both images are named after the
    zero-padded frame number. *)
Definition artifacts_outcome (w : world) (diff_folder alpha_folder : string)
    (start_frame : Z) (i : nat) (source_frame_gr tested_frame_gr : gray_image)
  : result unit :=
  let counter := zfill 4 (str_int (start_frame + Z.of_nat i)) in
  save_artifacts w (path_join diff_folder (counter ++ ".jpg"))
    (path_join alpha_folder (counter ++ ".png"))
    source_frame_gr tested_frame_gr.

(** The loop body once both metrics' inputs are at hand: the SSIM call
    with its handler, the two appends, the artifacts. *)
Definition record_metrics (w : world) (diff_folder alpha_folder : string)
    (start_frame : Z) (acc : loop_state) (i : nat)
    (source_frame_gr tested_frame_gr : gray_image)
    (mse_result : fval) (log1 : list log_event) : loop_state :=
  let ssim_result := ssim_or_zero w source_frame_gr tested_frame_gr in
  let log2 :=
    match ssim w source_frame_gr tested_frame_gr with
    | Ok _ => log1
    | Raise _ => log1 ++ [SsimFailed i]
    end in
  let mse_list := result_mse_list acc ++ [mse_result] in
  let ssim_list := result_ssim_list acc ++ [ssim_result] in
  match artifacts_outcome w diff_folder alpha_folder start_frame i
          source_frame_gr tested_frame_gr with
  | Ok _ => mk_loop mse_list ssim_list (failed_comparisons acc) log2
  | Raise _ =>
      mk_loop mse_list ssim_list (failed_comparisons acc + 1)
              (log2 ++ [FrameError i])
  end.

(** The [try]/[except ValueError] around the MSE call, then the rest of
    the body; any other exception goes to the handler of the whole
    body. *)
Definition after_mse (w : world) (diff_folder alpha_folder : string)
    (start_frame : Z) (acc : loop_state) (i : nat)
    (source_frame_gr tested_frame_gr : gray_image)
    (mse_outcome : result fval) : loop_state :=
  match mse_outcome with
  | Ok mse_result =>
      record_metrics w diff_folder alpha_folder start_frame acc i
        source_frame_gr tested_frame_gr mse_result (log acc)
  | Raise ValueError =>
      record_metrics w diff_folder alpha_folder start_frame acc i
        source_frame_gr tested_frame_gr (Finite 0) (log acc ++ [MseFailed i])
  | Raise _ => skip_frame acc (FrameError i)
  end.

(** One pass through the loop body for index [i]. *)
Definition compare_pair (w : world) (diff_folder alpha_folder : string)
    (start_frame : Z) (acc : loop_state) (i : nat)
    (orig_image_path test_image_path : string) : loop_state :=
  match imread w orig_image_path, imread w test_image_path with
  | Some source_frame, Some tested_frame =>
      if negb (frame_shape_eqb source_frame tested_frame)
      then skip_frame acc (DimensionMismatch i)
      else
        let source_frame_gr := cvtColor w source_frame in
        let tested_frame_gr := cvtColor w tested_frame in
        after_mse w diff_folder alpha_folder start_frame acc i
          source_frame_gr tested_frame_gr
          (mean_squared_error source_frame_gr tested_frame_gr)
  | _, _ => skip_frame acc (CouldNotReadImage i)
  end.

(** [for i, (orig, test) in enumerate(zip(...))], from index [i]. *)
Fixpoint compare_loop (w : world) (diff_folder alpha_folder : string)
    (start_frame : Z) (pairs : list (string * string)) (i : nat)
    (acc : loop_state) : loop_state :=
  match pairs with
  | [] => acc
  | (orig_image_path, test_image_path) :: rest =>
      compare_loop w diff_folder alpha_folder start_frame rest (i + 1)
        (compare_pair w diff_folder alpha_folder start_frame acc i
           orig_image_path test_image_path)
  end.

(** What a call of [render_compare_do_it] leaves behind: the report if
    one was written, the final locals of the loop (with the log). *)
Record run : Type := mk_run {
  xml_report : option report;
  locals : loop_state
}.

Definition stop_early (ev : log_event) : result run :=
  Ok (mk_run None (mk_loop [] [] 0 [ev])).

Definition results_folder (folder_frame_path : string) : string :=
  replace_backslash (path_join folder_frame_path "results").
Definition diff_images_folder (folder_frame_path : string) : string :=
  replace_backslash (path_join (results_folder folder_frame_path) "diff_images").
Definition alpha_images_folder (folder_frame_path : string) : string :=
  replace_backslash (path_join (results_folder folder_frame_path) "alpha_images").

(** [int(os.path.basename(image_orig_list[0]).split('.')[0])]. *)
Definition first_frame_number (first_image : string) : result Z :=
  py_int (hd "" (split_on "." (basename first_image))).

Definition render_compare_do_it (w : world) (folder_frame_path : string)
    (image_orig_list image_tester_list : list string)
    (freedview_path_orig freedview_path_tester : string)
    (freedview_name_orig freedview_name_tester : string) : result run :=
  match image_orig_list, image_tester_list with
  | [], _ | _, [] => stop_early EmptyImageLists
  | first_image :: _, _ :: _ =>
  if negb (List.length image_orig_list =? List.length image_tester_list)%nat
  then stop_early ImageListLengthMismatch
  else
  match first_frame_number first_image with
  | Raise _ => stop_early StartFrameUnreadable
  | Ok start_frame =>
  let result_folder := results_folder folder_frame_path in
  match mkdir w result_folder with
  | Raise _ => stop_early (FolderNotCreated result_folder)
  | Ok _ =>
  let '(event_name, sport_type, stadium_name, category_name) :=
    extract_metadata_from_path result_folder in
  let diff_folder := diff_images_folder folder_frame_path in
  match mkdir w diff_folder with
  | Raise _ => stop_early (FolderNotCreated diff_folder)
  | Ok _ =>
  let alpha_folder := alpha_images_folder folder_frame_path in
  match mkdir w alpha_folder with
  | Raise _ => stop_early (FolderNotCreated alpha_folder)
  | Ok _ =>
  let path_list := [freedview_path_orig; freedview_path_tester; result_folder;
                    diff_folder; alpha_folder] in
  let final := compare_loop w diff_folder alpha_folder start_frame
                 (combine image_orig_list image_tester_list) 0 loop_start in
  match result_ssim_list final with
  | [] => Ok (mk_run None
               (mk_loop (result_mse_list final) [] (failed_comparisons final)
                        (log final ++ [NoValidComparisons])))
  | _ =>
      let compare_type_list := [result_mse_list final; result_ssim_list final] in
      let start_frame_str := zfill 4 (str_int start_frame) in
      let end_frame :=
        (Z.of_nat (List.length image_orig_list) + start_frame - 1)%Z in
      let end_frame_str := zfill 4 (str_int end_frame) in
      match write_to_xml_file w result_folder compare_type_list
              start_frame_str end_frame_str path_list event_name
              freedview_name_orig freedview_name_tester
              (Some sport_type) (Some stadium_name) (Some category_name) with
      | Ok r => Ok (mk_run (Some r) final)
      | Raise _ =>
          Ok (mk_run None
                (mk_loop (result_mse_list final) (result_ssim_list final)
                         (failed_comparisons final)
                         (log final ++ [XmlReportFailed])))
      end
  end end end end end end.

(** *** One comparison task *)


(** [s.replace(old, new)] for a non-empty [old]. *)
Definition replace_str (old new s : string) : string :=
  String.concat new (split_str old s).



(** *** Notions the properties are stated with *)

(** An index position is compared when both images load and their
    dimensions agree. *)
Definition valid_pair (w : world) (pair : string * string) : bool :=
  match imread w (fst pair), imread w (snd pair) with
  | Some source_frame, Some tested_frame =>
      frame_shape_eqb source_frame tested_frame
  | _, _ => false
  end.

Definition count_valid (w : world) (pairs : list (string * string)) : nat :=
  List.length (filter (valid_pair w) pairs).

(** The SSIM entry a compared pair contributes. *)
Definition ssim_entry (w : world) (pair : string * string) : fval :=
  match imread w (fst pair), imread w (snd pair) with
  | Some source_frame, Some tested_frame =>
      ssim_or_zero w (cvtColor w source_frame) (cvtColor w tested_frame)
  | _, _ => NaN
  end.


(** *** Test images and test disks *)

(** 2 x 2 single-channel images: uniform 128, uniform 130, and a 1 x 4
    strip. *)
Definition gray_128 : gray_image := mk_gray 2 2 [128; 128; 128; 128]%Z.
Definition gray_130 : gray_image := mk_gray 2 2 [130; 130; 130; 130]%Z.
Definition gray_strip : gray_image := mk_gray 1 4 [128; 128; 128; 128]%Z.

Definition uniform_frame (v : Z) : bgr_image :=
  mk_bgr 2 2 [(v, v, v); (v, v, v); (v, v, v); (v, v, v)].

Definition sample_orig : list string :=
  ["/r/v1/0005.jpg"; "/r/v1/0006.jpg"; "/r/v1/0007.jpg"].
Definition sample_tester : list string :=
  ["/r/v2/0005.jpg"; "/r/v2/0006.jpg"; "/r/v2/0007.jpg"].
Definition sample_folder : string :=
  "/d/testSets_results/E12_34_56_78_90_12__/Set1/F42/v1_VS_v2".

(** A disk on which frame 5 of both versions loads (128 against 130),
    frame 6 of the tested version is unreadable, and frame 7 loads on
    both sides as a dark frame on which the SSIM call raises. *)
Definition sample_world : world :=
  mk_world
    (fun p =>
       if String.eqb p "/r/v1/0005.jpg" then Some (uniform_frame 128)
       else if String.eqb p "/r/v2/0005.jpg" then Some (uniform_frame 130)
       else if String.eqb p "/r/v1/0006.jpg" then Some (uniform_frame 10)
       else if String.eqb p "/r/v1/0007.jpg" then Some (uniform_frame 10)
       else if String.eqb p "/r/v2/0007.jpg" then Some (uniform_frame 10)
       else None)
    (fun bgr => snd (fst bgr))
    (fun a b => if (hd 0%Z (pixels a) =? 10)%Z then Raise ValueError
                else Ok (9 # 10))
    (fun _ _ _ _ => Ok tt)
    (fun _ => Ok tt)
    (fun _ => true)
    (fun _ => true)
    (fun _ _ _ => (sample_orig, sample_tester, Some "/r/v1", Some "/r/v2")).



End Compare.

(** ** freeDViewRunner.py: the render pool of [FreeDViewRunner.do_it] *)

Module Runner.

Record render_task : Type := mk_render_task {
  version_index : nat;
  freedview_ver_path : string;
  freedview_ver_name : string;
  json_index : nat;
  json_file_path : string;
  folder_frame : string;
  freedview_ver : string;
  total_renders : nat
}.

(** The nested loops that fill [render_tasks]: versions outside, JSON
    files inside. *)
Definition make_render_tasks (freedview_ver_path_list freedview_ver_name_list
    json_file_list folder_frame_list : list string) (freedview_ver0 : string)
  : list render_task :=
  let total := (List.length freedview_ver_path_list *
                List.length json_file_list)%nat in
  flat_map
    (fun iv =>
       map (fun xj =>
              mk_render_task (fst iv) (snd iv)
                (nth (fst iv) freedview_ver_name_list "")
                (fst xj) (snd xj) (nth (fst xj) folder_frame_list "")
                freedview_ver0 total)
           (combine (seq 0 (List.length json_file_list)) json_file_list))
    (combine (seq 0 (List.length freedview_ver_path_list))
             freedview_ver_path_list).

(** What [future.result()] gives for a task: the boolean
    [_render_single_task] returned, or an exception it let escape. *)
Inductive task_result : Type :=
| Returns (success : bool)
| Raises (e : exn).

(** The runner while the pool works: the three counters of the object,
    the tasks submitted and not yet taken by a worker, the tasks held by
    a worker, and the futures that are done but not yet handed out by
    [as_completed]. *)
Record pool : Type := mk_pool {
  render_count : nat;
  successful_renders : nat;
  failed_renders : nat;
  queued : list render_task;
  running : list render_task;
  finished : list (render_task * task_result)
}.

(** After the three counters are reset and every task is submitted. *)
Definition submit_all (render_tasks : list render_task) : pool :=
  mk_pool 0 0 0 render_tasks [] [].

(** The pool has drained: nothing queued, running or waiting to be
    collected. *)
Definition drained (s : pool) : bool :=
  match queued s, running s, finished s with
  | [], [], [] => true
  | _, _, _ => false
  end.

(** The body of the [for future in as_completed(futures)] loop. *)
Definition collect (s : pool) (r : task_result) : nat * nat :=
  match r with
  | Returns true => (successful_renders s + 1, failed_renders s)%nat
  | Returns false => (successful_renders s, failed_renders s + 1)%nat
  | Raises _ => (successful_renders s, failed_renders s + 1)%nat
  end.

(** What can happen next.  [Start]: a free worker takes the oldest
    queued task and, under the lock, counts it in [_render_count].
    [Finish k]: the [k]-th running task ends.  [Collect k]: the main
    thread receives the [k]-th finished future from [as_completed] and
    updates its counters. *)
Inductive action : Type :=
| Start
| Finish (k : nat)
| Collect (k : nat).

Fixpoint remove_nth {A : Type} (k : nat) (l : list A) : list A :=
  match l, k with
  | [], _ => []
  | _ :: rest, O => rest
  | a :: rest, S k' => a :: remove_nth k' rest
  end.

Section Pool.

Variable max_workers : nat.
(** What running a task does, decided by the disk and the renderer. *)
Variable render_single_task : render_task -> task_result.

Definition step (s : pool) (a : action) : option pool :=
  match a with
  | Start =>
      match queued s with
      | t :: rest =>
          if (List.length (running s) <? max_workers)%nat
          then Some (mk_pool (render_count s + 1) (successful_renders s)
                       (failed_renders s) rest (running s ++ [t]) (finished s))
          else None
      | [] => None
      end
  | Finish k =>
      match nth_error (running s) k with
      | Some t =>
          Some (mk_pool (render_count s) (successful_renders s)
                  (failed_renders s) (queued s) (remove_nth k (running s))
                  (finished s ++ [(t, render_single_task t)]))
      | None => None
      end
  | Collect k =>
      match nth_error (finished s) k with
      | Some (_, r) =>
          let '(ok, ko) := collect s r in
          Some (mk_pool (render_count s) ok ko (queued s) (running s)
                  (remove_nth k (finished s)))
      | None => None
      end
  end.

(** A schedule is a sequence of actions; it is refused as soon as one
    of them cannot happen. *)
Fixpoint execute (s : pool) (schedule : list action) : option pool :=
  match schedule with
  | [] => Some s
  | a :: rest =>
      match step s a with
      | Some s' => execute s' rest
      | None => None
      end
  end.

(** The schedule of a pool that works one task at a time. *)
Fixpoint one_by_one (n : nat) : list action :=
  match n with
  | O => []
  | S n' => Start :: Finish 0 :: Collect 0 :: one_by_one n'
  end.

End Pool.

(** Tasks that have not been collected yet. *)
Definition in_flight (s : pool) : nat :=
  (List.length (queued s) + List.length (running s) +
   List.length (finished s))%nat.

(** Steps still to come: three per queued task, two per running one,
    one per finished future. *)
Definition steps_left (s : pool) : nat :=
  (3 * List.length (queued s) + 2 * List.length (running s) +
   List.length (finished s))%nat.

(** Three tasks (two versions would give an even number; the length is
    what matters here), two workers, and a schedule in which the second
    task ends first. *)
Definition sample_tasks : list render_task :=
  [ mk_render_task 0 "/fd/v1" "v1" 0 "a.json" "/d/testSets/E/S/F1" "v1_VS_v2" 3;
    mk_render_task 0 "/fd/v1" "v1" 1 "b.json" "/d/testSets/E/S/F2" "v1_VS_v2" 3;
    mk_render_task 1 "/fd/v2" "v2" 0 "a.json" "/d/testSets/E/S/F1" "v1_VS_v2" 3 ].

Definition sample_result (t : render_task) : task_result :=
  match version_index t, json_index t with
  | O, O => Returns true
  | O, _ => Returns false
  | _, _ => Raises OSError
  end.

Definition sample_schedule : list action :=
  [ Start; Start; Finish 1; Start; Collect 0; Finish 0; Finish 0;
    Collect 1; Collect 0 ].

End Runner.

(** ** Further notions the properties are stated with *)

(** [c in s] for a character. *)
Fixpoint contains (c : ascii) (s : string) : bool :=
  match s with
  | EmptyString => false
  | String a rest => Ascii.eqb a c || contains c rest
  end.

(** Every entry of the tree lies in a directory of the tree (the root
    included). *)
Definition parent_closed (fs0 : filesystem) : bool :=
  forallb (fun e => is_dir fs0 (parent (fst e))) fs0.

(** What the first loop of [get_json_files] finds below one entry of the
    base path, without folder creation. *)
Definition event_under (fs0 : filesystem) (pat : string) (item e : path) : Prop :=
  (Localizer.is_event pat (path_str item) = Ok true /\ e = item) \/
  (Localizer.is_event pat (path_str item) = Ok false /\
   exists st st',
     Localizer.fs st = fs0 /\
     Localizer.traverse_sport_type item pat false st = Ok (Some e, st')).

(** ** freeDViewRunner.py: the names [run_freedview] gives the rendered
    images *)

Module Renaming.





End Renaming.


(** ** The version pair of the INI file *)

(** [s[k:]]. *)
Fixpoint string_drop (k : nat) (s : string) : string :=
  match k, s with
  | O, _ => s
  | S k', String _ rest => string_drop k' rest
  | S _, EmptyString => EmptyString
  end.

(** [sep in s] for a text. *)
Fixpoint occurs (sep s : string) : bool :=
  match s with
  | EmptyString => is_prefix sep s
  | String _ rest => is_prefix sep s || occurs sep rest
  end.

(** [freedview_ver.split("_VS_")] with its [len(...) != 2] test, as in
    [FreeDViewRunner.do_it] and [RenderCompare._process_from_ini]:
    [None] is the invalid-format branch. *)
Definition parse_version_pair (freedview_ver : string) : option (string * string) :=
  match split_str "_VS_" freedview_ver with
  | [freedview_name_orig; freedview_name_tester] =>
      Some (freedview_name_orig, freedview_name_tester)
  | _ => None
  end.

(** ** getDataIni.py *)

Module Ini.

Definition ERROR_VALUE : string := "error".

(** The options of one section as [configparser] stores them: names in
    lower case ([optionxform]), values as written in the file. *)
Definition option_table : Type := list (string * string).

(** What [ConfigParser] holds after [read].  [interpolate own raw] is the
    library's [BasicInterpolation] of a value that contains [%], seen
    from a section with the options [own]; [None] when it raises. *)
Record config : Type := mk_config {
  defaults : option_table;
  sections : list (string * option_table);
  interpolate : option_table -> string -> option string
}.

(** The disk: which paths exist, and what [config.read] makes of a file
    ([None] when nothing was read or the parser raised). *)
Record disk : Type := mk_disk {
  os_path_exists : string -> bool;
  read_config : string -> option config
}.

(** [str.lower] on characters below 256. *)
Definition lower_char (c : ascii) : ascii :=
  let n := nat_of_ascii c in
  if ((65 <=? n)%nat && (n <=? 90)%nat) ||
     ((192 <=? n)%nat && (n <=? 222)%nat && negb (n =? 215)%nat)
  then ascii_of_nat (n + 32) else c.

Fixpoint lower (s : string) : string :=
  match s with
  | EmptyString => EmptyString
  | String c rest => String (lower_char c) (lower rest)
  end.

Definition lookup (table : option_table) (key : string) : option string :=
  match find (fun kv => String.eqb (fst kv) key) table with
  | Some kv => Some (snd kv)
  | None => None
  end.

(** ["%" in value]. *)
Fixpoint has_percent (value : string) : bool :=
  match value with
  | EmptyString => false
  | String c rest => Ascii.eqb c "%" || has_percent rest
  end.

(** [config.has_option(section, tag)] for a section with the options
    [own]: the option is the section's own or a default.  [DEFAULT] is
    the section without options of its own. *)
Definition has_option (c : config) (own : option_table) (tag : string)
  : bool :=
  match lookup own (lower tag), lookup (defaults c) (lower tag) with
  | None, None => false
  | _, _ => true
  end.

(** [config.get(section, tag)]: the section's own value before the
    default, returned as it is unless it contains [%]; [None] when the
    call raises. *)
Definition get (c : config) (own : option_table) (tag : string)
  : option string :=
  let found :=
    match lookup own (lower tag) with
    | Some raw => Some raw
    | None => lookup (defaults c) (lower tag)
    end in
  match found with
  | Some raw => if has_percent raw then interpolate c own raw else Some raw
  | None => None
  end.

(** One pass of the loop over the sections, or the [DEFAULT] fallback:
    what is appended to [data_list]. *)
Definition values_of (c : config) (own : option_table) (tag_name : string)
  : list string :=
  if has_option c own tag_name then
    match get c own tag_name with
    | Some value => [value]
    | None => []
    end
  else [].

Definition get_data_ini_impl (d : disk) (file_path tag_name : string)
    (file_check : bool) : list string :=
  match file_path with
  | EmptyString => [ERROR_VALUE]
  | _ =>
      if negb (os_path_exists d file_path) then [ERROR_VALUE]
      else
        match read_config d file_path with
        | None => [ERROR_VALUE]
        | Some c =>
            let from_sections :=
              flat_map (fun section => values_of c (snd section) tag_name)
                       (sections c) in
            let data_list :=
              match from_sections with
              | [] => values_of c [] tag_name
              | _ => from_sections
              end in
            if file_check && negb (forallb (os_path_exists d) data_list)
            then [ERROR_VALUE]
            else
              match data_list with
              | [] => [ERROR_VALUE]
              | _ => data_list
              end
        end
  end.

(** [getDataINI(file_path, tag_name, file_check=0)] passes
    [bool(file_check)]. *)
Definition getDataINI (d : disk) (file_path tag_name : string)
    (file_check : Z) : list string :=
  get_data_ini_impl d file_path tag_name (negb (file_check =? 0)%Z).

Definition get_data_ini (d : disk) (file_path tag_name : string)
    (file_check : bool) : list string :=
  get_data_ini_impl d file_path tag_name file_check.

(** A file with a default and two sections; one of the paths exists. *)
Definition sample_config : config :=
  mk_config
    [("camera", "renderCAM")]
    [("paths", [("settestpath", "/d/testSets");
                ("freedviewver", "v1_VS_v2")]);
     ("names", [("eventname", "E##_##_##_##_##_##__")])]
    (fun _ _ => None).

Definition sample_disk : disk :=
  mk_disk
    (fun p => String.eqb p "/etc/tester.ini" || String.eqb p "/d/testSets")
    (fun p => if String.eqb p "/etc/tester.ini" then Some sample_config
              else None).

End Ini.

(* ================================================================== *)
(** * Properties *)

(** ** Basic facts on strings *)

Lemma get_some_lt (s : string) : forall i c,
  String.get i s = Some c -> (i < String.length s)%nat.
Proof.
  induction s as [|a s IH]; intros i c H; simpl in *.
  - destruct i; discriminate.
  - destruct i as [|i]; [lia|]. apply IH in H. lia.
Qed.

Lemma get_lt_some (s : string) : forall i,
  (i < String.length s)%nat -> exists c, String.get i s = Some c.
Proof.
  induction s as [|a s IH]; intros i H; simpl in *.
  - lia.
  - destruct i as [|i]; [eauto|]. apply IH. lia.
Qed.

Lemma get_none_ge (s : string) (i : nat) :
  String.get i s = None -> (String.length s <= i)%nat.
Proof.
  intros H. destruct (Nat.lt_ge_cases i (String.length s)) as [L|L]; [|exact L].
  destruct (get_lt_some s i L) as [c Hc]. congruence.
Qed.

Lemma position_matches_dec (p c : ascii) :
  (Ascii.eqb p c || (Ascii.eqb p hash && in_digits c)) = true <->
  Localizer.position_matches p c.
Proof.
  unfold Localizer.position_matches.
  rewrite orb_true_iff, andb_true_iff, !Ascii.eqb_eq. tauto.
Qed.

Lemma longest_matching_prefix_unique (P B : string) (n m : nat) :
  Localizer.longest_matching_prefix P B n ->
  Localizer.longest_matching_prefix P B m -> n = m.
Proof.
  assert (A : forall n m, (n < m)%nat ->
            Localizer.longest_matching_prefix P B n ->
            Localizer.longest_matching_prefix P B m -> False).
  { clear n m. intros n m L [_ Hn] [Hm _].
    destruct (Hm n L) as (p & c & Hp & Hc & Hpc).
    destruct Hn as [Hn|[Hn|(p' & c' & Hp' & Hc' & Hn)]]; congruence. }
  intros Hn Hm.
  destruct (Nat.lt_trichotomy n m) as [L|[E|L]]; [|exact E|].
  - exfalso. exact (A _ _ L Hn Hm).
  - exfalso. exact (A _ _ L Hm Hn).
Qed.

(** The loop, started at index [k] with [match_count = k] after [k]
    matching positions, stops on the longest matching prefix. *)
Lemma is_event_loop_longest (P B : string) : forall m k,
  (k + m = String.length P)%nat ->
  (String.length P <= String.length B)%nat ->
  (forall i, (i < k)%nat ->
     exists p c, String.get i P = Some p /\ String.get i B = Some c /\
                 Localizer.position_matches p c) ->
  exists n, Localizer.is_event_loop P B (seq k m) k = Ok n /\
            Localizer.longest_matching_prefix P B n.
Proof.
  induction m as [|m IH]; intros k Hk Hlen Hpre.
  - exists k. split; [reflexivity|]. split; [exact Hpre|].
    left. destruct (String.get k P) eqn:E; [|reflexivity].
    apply get_some_lt in E. lia.
  - destruct (get_lt_some P k ltac:(lia)) as [p Hp].
    destruct (get_lt_some B k ltac:(lia)) as [c Hc].
    simpl. unfold str_index. rewrite Hp, Hc. simpl.
    destruct (Ascii.eqb p c || (Ascii.eqb p hash && in_digits c)) eqn:E.
    + assert (Hstep : exists n,
                Localizer.is_event_loop P B (seq (S k) m) (k + 1) = Ok n /\
                Localizer.longest_matching_prefix P B n).
      { replace (k + 1)%nat with (S k) by lia.
        apply IH; [lia|exact Hlen|].
        intros i Hi. destruct (Nat.eq_dec i k) as [->|Hne].
        - exists p, c. repeat split; try assumption.
          apply position_matches_dec. exact E.
        - apply Hpre. lia. }
      destruct (Ascii.eqb p c); [exact Hstep|].
      simpl in E. rewrite E. exact Hstep.
    + apply orb_false_iff in E. destruct E as [E1 E2].
      rewrite E1, E2. exists k. split; [reflexivity|].
      split; [exact Hpre|]. right; right. exists p, c.
      repeat split; try assumption.
      intros HM. apply position_matches_dec in HM.
      rewrite E1, E2 in HM. discriminate.
Qed.

(** C1. [is_event] never raises, answers [False] for a basename shorter
    than the pattern, and answers [True] exactly when the basename is at
    least as long as the pattern and the longest prefix on which both
    match position by position (equal characters, or ['#'] against a
    decimal digit) has at least 20 characters. *)
Theorem is_event_iff_long_prefix (P test_path : string) :
  let B := basename test_path in
  (exists b, Localizer.is_event P test_path = Ok b) /\
  ((String.length B < String.length P)%nat ->
     Localizer.is_event P test_path = Ok false) /\
  (Localizer.is_event P test_path = Ok true <->
     (String.length P <= String.length B)%nat /\
     exists n, Localizer.longest_matching_prefix P B n /\ (20 <= n)%nat).
Proof.
  intros B. unfold Localizer.is_event. fold B.
  destruct (String.length B <? String.length P)%nat eqn:L.
  - apply Nat.ltb_lt in L. split; [eauto|]. split; [reflexivity|].
    split; [discriminate|]. intros [H _]. lia.
  - apply Nat.ltb_ge in L.
    destruct (is_event_loop_longest P B (String.length P) 0
                ltac:(lia) L ltac:(intros; lia)) as (n & Hn & Hlong).
    rewrite Hn. cbn [bind]. split; [eauto|]. split; [intros; lia|]. split.
    + intros H. assert (H' : (20 <=? n)%nat = true) by congruence.
      apply Nat.leb_le in H'.
      split; [exact L|]. exists n. split; assumption.
    + intros [_ (n' & Hn' & H20)].
      rewrite (longest_matching_prefix_unique P B n n' Hlong Hn').
      f_equal. apply Nat.leb_le. exact H20.
Qed.

(** ** Decimal text of a counter *)

Lemma to_uint_nonnil (n : N) : N.to_uint n <> Decimal.Nil.
Proof.
  destruct n as [|p]; simpl; [discriminate|].
  apply DecimalPos.Unsigned.to_uint_nonnil.
Qed.




(** ** The file system *)

Lemma path_eqb_eq (p q : path) : path_eqb p q = true <-> p = q.
Proof.
  unfold path_eqb. destruct (list_eq_dec string_dec p q); split; congruence.
Qed.


Lemma child_nonempty (p : path) (n : string) : p // n <> [].
Proof. unfold child. destruct p; discriminate. Qed.

Lemma path_exists_In (fs0 : filesystem) (p : path) :
  p <> [] -> path_exists fs0 p = true -> In p (map fst fs0).
Proof.
  intros Hp. unfold path_exists, kind_of. destruct p as [|c p]; [congruence|].
  destruct (find _ fs0) as [e|] eqn:F; [|discriminate]. intros _.
  apply find_some in F. destruct F as [Hin Heq].
  apply path_eqb_eq in Heq. rewrite <- Heq. now apply in_map.
Qed.

Lemma kind_of_app_old (fs0 ext : filesystem) (p : path) (k : kind) :
  kind_of fs0 p = Some k -> kind_of (fs0 ++ ext) p = Some k.
Proof.
  unfold kind_of. destruct p as [|c p]; [auto|].
  induction fs0 as [|e fs0 IH]; simpl; [discriminate|].
  destruct (path_eqb (fst e) (c :: p)); auto.
Qed.




(** ** The counter loop of [create_extra_folder] *)

Section SkipExisting.

Variable fs0 : filesystem.
Variable placeholder : N -> path.
Hypothesis placeholder_inj : forall i j, placeholder i = placeholder j -> i = j.
Hypothesis placeholder_nonempty : forall i, placeholder i <> [].

Lemma skip_existing_some : forall fuel index i,
  Localizer.skip_existing fuel fs0 placeholder index = Some i ->
  (index <= i)%N /\
  path_exists fs0 (placeholder i) = false /\
  (forall j, (index <= j < i)%N -> path_exists fs0 (placeholder j) = true).
Proof.
  induction fuel as [|fuel IH]; intros index i H; simpl in H; [discriminate|].
  destruct (path_exists fs0 (placeholder index)) eqn:E.
  - apply IH in H. destruct H as (H1 & H2 & H3).
    split; [lia|]. split; [exact H2|].
    intros j Hj. destruct (N.eq_dec j index) as [->|Hne]; [exact E|].
    apply H3. lia.
  - inversion H; subst. split; [lia|]. split; [exact E|]. intros j Hj. lia.
Qed.



End SkipExisting.

(** ** [create_extra_folder] *)


Lemma is_dir_path_exists (fs0 : filesystem) (p : path) :
  is_dir fs0 p = true -> path_exists fs0 p = true.
Proof.
  unfold is_dir, path_exists. destruct (kind_of fs0 p) as [[|]|]; congruence.
Qed.




(** ** Frame names *)

(** C2, at the failing input.  A frame directory named [XF42] with its
    descriptor beneath it is catalogued although its name is not [F]
    followed by digits: [split('F')] gives the two pieces [X] and [42]
    and [int] accepts [42].  On the same tree [F42] is catalogued and
    [F4a] is not. *)
Theorem frame_XF42_is_catalogued :
  Localizer.is_F_digits "XF42" = false /\
  split_on "F" "XF42" = ["X"; "42"] /\
  py_int "42" = Ok 42%Z /\
  Localizer.frame_qualifies Localizer.shallow_tree
    ["testSets"; Localizer.event_dir; "Set1"; "XF42"] = true /\
  match Localizer.get_json_files ["testSets"] Localizer.event_pattern "Set"
          false (Localizer.fresh_localizer Localizer.shallow_tree) with
  | Ok (units, _) => map Localizer.frame_name units = ["F42"; "XF42"]
  | Raise _ => False
  end.
Proof. repeat split; vm_compute; reflexivity. Qed.

(** ** The render pool *)

Section PoolFacts.

Variable max_workers : nat.
Variable render_single_task : Runner.render_task -> Runner.task_result.

Lemma remove_nth_length {A : Type} : forall (l : list A) (k : nat) (a : A),
  nth_error l k = Some a ->
  (List.length (Runner.remove_nth k l) + 1 = List.length l)%nat.
Proof.
  induction l as [|x l IH]; intros k a H.
  - destruct k; discriminate.
  - destruct k as [|k]; simpl in *; [lia|].
    specialize (IH _ _ H). lia.
Qed.

Lemma step_preserves (s s' : Runner.pool) (a : Runner.action) :
  Runner.step max_workers render_single_task s a = Some s' ->
  (Runner.successful_renders s' + Runner.failed_renders s' + Runner.in_flight s' =
   Runner.successful_renders s + Runner.failed_renders s + Runner.in_flight s)%nat /\
  (Runner.render_count s' + List.length (Runner.queued s') =
   Runner.render_count s + List.length (Runner.queued s))%nat /\
  (Runner.steps_left s' + 1 = Runner.steps_left s)%nat.
Proof.
  unfold Runner.step, Runner.in_flight, Runner.steps_left. destruct a as [|k|k].
  - destruct (Runner.queued s) as [|t rest] eqn:Q; [discriminate|].
    destruct (_ <? _)%nat; [|discriminate].
    intros H; inversion H; subst; clear H; simpl.
    rewrite length_app; simpl. lia.
  - destruct (nth_error (Runner.running s) k) as [t|] eqn:R; [|discriminate].
    intros H; inversion H; subst; clear H; simpl.
    pose proof (remove_nth_length _ _ _ R). rewrite length_app; simpl. lia.
  - destruct (nth_error (Runner.finished s) k) as [[t r]|] eqn:F; [|discriminate].
    pose proof (remove_nth_length _ _ _ F) as L.
    destruct r as [[|]|e]; simpl; intros H; inversion H; subst; clear H; simpl; lia.
Qed.

Lemma execute_preserves : forall (schedule : list Runner.action)
    (s s' : Runner.pool),
  Runner.execute max_workers render_single_task s schedule = Some s' ->
  (Runner.successful_renders s' + Runner.failed_renders s' + Runner.in_flight s' =
   Runner.successful_renders s + Runner.failed_renders s + Runner.in_flight s)%nat /\
  (Runner.render_count s' + List.length (Runner.queued s') =
   Runner.render_count s + List.length (Runner.queued s))%nat /\
  (Runner.steps_left s' + List.length schedule = Runner.steps_left s)%nat.
Proof.
  induction schedule as [|a schedule IH]; intros s s' H; simpl in H.
  - inversion H; subst. simpl. lia.
  - destruct (Runner.step max_workers render_single_task s a) as [s1|] eqn:St;
      [|discriminate].
    apply step_preserves in St. apply IH in H. simpl. lia.
Qed.

Lemma drained_in_flight (s : Runner.pool) :
  Runner.drained s = true <-> Runner.in_flight s = 0%nat.
Proof.
  unfold Runner.drained, Runner.in_flight.
  destruct (Runner.queued s), (Runner.running s), (Runner.finished s);
    simpl; split; intros H; try reflexivity; try discriminate; lia.
Qed.

(** A pool with at least one worker is never stuck before it has
    drained. *)
Lemma pool_never_stuck (s : Runner.pool) :
  (0 < max_workers)%nat -> Runner.drained s = false ->
  exists a s', Runner.step max_workers render_single_task s a = Some s'.
Proof.
  intros W D. unfold Runner.drained in D.
  destruct (Runner.finished s) as [|[t r] fin] eqn:F.
  - destruct (Runner.running s) as [|t run] eqn:R.
    + destruct (Runner.queued s) as [|t q] eqn:Q; [discriminate|].
      exists Runner.Start. unfold Runner.step. rewrite Q, R. simpl.
      destruct max_workers; [lia|]. simpl. eauto.
    + exists (Runner.Finish 0). unfold Runner.step. rewrite R. simpl. eauto.
  - exists (Runner.Collect 0). unfold Runner.step. rewrite F. simpl.
    destruct (Runner.collect s r). eauto.
Qed.

(** Working the tasks one at a time drains the pool. *)
Lemma one_by_one_drains : forall (tasks : list Runner.render_task) (c ok ko : nat),
  (0 < max_workers)%nat ->
  exists s',
    Runner.execute max_workers render_single_task
      (Runner.mk_pool c ok ko tasks [] [])
      (Runner.one_by_one (List.length tasks)) = Some s' /\
    Runner.drained s' = true.
Proof.
  induction tasks as [|t tasks IH]; intros c ok ko W.
  - eexists. split; reflexivity.
  - cbn [List.length Runner.one_by_one Runner.execute].
    unfold Runner.step at 1. cbn [Runner.queued Runner.running List.length].
    destruct max_workers as [|w] eqn:E; [lia|].
    cbn [Nat.ltb Nat.leb]. cbn.
    destruct (render_single_task t) as [[|]|e]; cbn; apply IH; lia.
Qed.

End PoolFacts.

(** C8. Whatever the number of workers, whatever each task does and
    in whatever order tasks start, end and are collected: once the pool
    has drained, the successful and the failed counters add up to the
    number of submitted tasks (each collected future changed exactly one
    of them by one), and [_render_count] has counted every task once. *)
Theorem render_counters_add_up (max_workers : nat)
    (render_single_task : Runner.render_task -> Runner.task_result)
    (render_tasks : list Runner.render_task)
    (schedule : list Runner.action) (s : Runner.pool) :
  Runner.execute max_workers render_single_task
    (Runner.submit_all render_tasks) schedule = Some s ->
  Runner.drained s = true ->
  (Runner.successful_renders s + Runner.failed_renders s =
   List.length render_tasks)%nat /\
  Runner.render_count s = List.length render_tasks /\
  List.length schedule = (3 * List.length render_tasks)%nat.
Proof.
  intros H D. apply execute_preserves in H. destruct H as (H1 & H2 & H3).
  pose proof (proj1 (drained_in_flight s) D) as Z.
  unfold Runner.in_flight, Runner.steps_left in *. simpl in *.
  destruct (Runner.queued s), (Runner.running s), (Runner.finished s);
    simpl in *; try lia.
Qed.

Lemma render_counters_add_up_witness :
  Runner.execute 2 Runner.sample_result (Runner.submit_all Runner.sample_tasks)
    Runner.sample_schedule
  = Some (Runner.mk_pool 3 1 2 [] [] []) /\
  Runner.drained (Runner.mk_pool 3 1 2 [] [] []) = true /\
  ((1 + 2 = List.length Runner.sample_tasks)%nat /\
   3%nat = List.length Runner.sample_tasks /\
   List.length Runner.sample_schedule =
     (3 * List.length Runner.sample_tasks)%nat).
Proof.
  split; [reflexivity|]. split; [reflexivity|].
  apply (render_counters_add_up 2 Runner.sample_result Runner.sample_tasks
           Runner.sample_schedule (Runner.mk_pool 3 1 2 [] [] []));
    reflexivity.
Defined.

(** ** [mean_squared_error] *)

Lemma sum_squared_diff_cons (x y : Z) (xs ys : list Z) :
  Compare.sum_squared_diff (x :: xs) (y :: ys) =
  ((x - y) * (x - y) + Compare.sum_squared_diff xs ys)%Z.
Proof.
  unfold Compare.sum_squared_diff. cbn [combine map fold_right fst snd].
  now rewrite Z.pow_2_r.
Qed.

Lemma sum_squared_diff_nil_l (ys : list Z) : Compare.sum_squared_diff [] ys = 0%Z.
Proof. reflexivity. Qed.

Lemma sum_squared_diff_nil_r (xs : list Z) : Compare.sum_squared_diff xs [] = 0%Z.
Proof. destruct xs; reflexivity. Qed.

Lemma sum_squared_diff_nonneg : forall xs ys : list Z,
  (0 <= Compare.sum_squared_diff xs ys)%Z.
Proof.
  induction xs as [|x xs IH]; intros ys.
  - rewrite sum_squared_diff_nil_l. lia.
  - destruct ys as [|y ys]; [rewrite sum_squared_diff_nil_r; lia|].
    rewrite sum_squared_diff_cons. specialize (IH ys).
    pose proof (Z.square_nonneg (x - y)). lia.
Qed.

Lemma sum_squared_diff_self : forall xs : list Z,
  Compare.sum_squared_diff xs xs = 0%Z.
Proof.
  induction xs as [|x xs IH]; [reflexivity|].
  rewrite sum_squared_diff_cons, IH. lia.
Qed.

Lemma sum_squared_diff_sym : forall xs ys : list Z,
  Compare.sum_squared_diff xs ys = Compare.sum_squared_diff ys xs.
Proof.
  induction xs as [|x xs IH]; intros ys.
  - now rewrite sum_squared_diff_nil_l, sum_squared_diff_nil_r.
  - destruct ys as [|y ys]; [reflexivity|].
    rewrite !sum_squared_diff_cons, IH. lia.
Qed.

Lemma sum_squared_diff_pos : forall xs ys : list Z,
  List.length xs = List.length ys -> xs <> ys ->
  (0 < Compare.sum_squared_diff xs ys)%Z.
Proof.
  induction xs as [|x xs IH]; intros ys L D; destruct ys as [|y ys];
    simpl in L; try discriminate; [congruence|].
  injection L as L. rewrite sum_squared_diff_cons.
  pose proof (sum_squared_diff_nonneg xs ys) as NN.
  destruct (Z.eq_dec x y) as [->|Hxy].
  - assert (H : xs <> ys) by congruence.
    specialize (IH ys L H). lia.
  - pose proof (Z.square_nonneg (x - y)).
    assert ((x - y) * (x - y) <> 0)%Z by (intros E; apply Z.mul_eq_0 in E; lia).
    lia.
Qed.

Lemma shape_eqb_eq (a b : Compare.gray_image) :
  Compare.shape_eqb a b = true <-> Compare.shape a = Compare.shape b.
Proof.
  unfold Compare.shape_eqb, Compare.shape.
  rewrite andb_true_iff, !Nat.eqb_eq. split.
  - intros [-> ->]. reflexivity.
  - intros H. inversion H. auto.
Qed.

(** C5. On 8-bit single-channel images of equal dimensions:
    MSE(A, A) = 0; MSE(A, B) > 0 when A and B differ; MSE(A, B) =
    MSE(B, A). *)
Theorem mean_squared_error_metric (A B : Compare.gray_image) :
  Compare.is_gray_image A -> Compare.is_gray_image B ->
  Compare.shape A = Compare.shape B ->
  (exists q, Compare.mean_squared_error A A = Ok (Compare.Finite q) /\ q == 0) /\
  (A <> B ->
   exists q, Compare.mean_squared_error A B = Ok (Compare.Finite q) /\ 0 < q) /\
  Compare.mean_squared_error A B = Compare.mean_squared_error B A.
Proof.
  intros (HrA & HcA & HlA & _) (HrB & HcB & HlB & _) Hs.
  pose proof (proj2 (shape_eqb_eq A B) Hs) as Eab.
  pose proof (proj2 (shape_eqb_eq B A) (eq_sym Hs)) as Eba.
  pose proof (proj2 (shape_eqb_eq A A) eq_refl) as Eaa.
  unfold Compare.shape in Hs. injection Hs as Hr Hc.
  assert (Hden : (Z.of_nat (Compare.rows A * Compare.cols A) =? 0)%Z = false).
  { apply Z.eqb_neq. nia. }
  unfold Compare.mean_squared_error, Compare.float_div.
  rewrite Eab, Eba, Eaa. cbn [negb]. rewrite <- Hr, <- Hc, Hden.
  split; [|split].
  - eexists. split; [reflexivity|].
    rewrite sum_squared_diff_self. reflexivity.
  - intros D. eexists. split; [reflexivity|].
    assert (Hp : Compare.pixels A <> Compare.pixels B).
    { intros E. apply D. destruct A, B; simpl in *; congruence. }
    assert (Hl : List.length (Compare.pixels A) = List.length (Compare.pixels B))
      by (rewrite HlA, HlB, Hr, Hc; reflexivity).
    pose proof (sum_squared_diff_pos _ _ Hl Hp) as P.
    unfold Qlt. simpl. lia.
  - rewrite (sum_squared_diff_sym (Compare.pixels A)). reflexivity.
Qed.

Lemma is_gray_image_sample (v : Z) :
  (0 <= v <= 255)%Z -> Compare.is_gray_image (Compare.mk_gray 2 2 [v; v; v; v]).
Proof.
  intros H. unfold Compare.is_gray_image. simpl.
  repeat split; try lia; repeat constructor; lia.
Qed.

Lemma mean_squared_error_metric_witness :
  Compare.is_gray_image Compare.gray_128 /\
  Compare.is_gray_image Compare.gray_130 /\
  Compare.shape Compare.gray_128 = Compare.shape Compare.gray_130 /\
  ((exists q, Compare.mean_squared_error Compare.gray_128 Compare.gray_128
              = Ok (Compare.Finite q) /\ q == 0) /\
   (Compare.gray_128 <> Compare.gray_130 ->
    exists q, Compare.mean_squared_error Compare.gray_128 Compare.gray_130
              = Ok (Compare.Finite q) /\ 0 < q) /\
   Compare.mean_squared_error Compare.gray_128 Compare.gray_130 =
   Compare.mean_squared_error Compare.gray_130 Compare.gray_128).
Proof.
  split; [apply is_gray_image_sample; lia|].
  split; [apply is_gray_image_sample; lia|].
  split; [reflexivity|].
  apply (mean_squared_error_metric Compare.gray_128 Compare.gray_130);
    [apply is_gray_image_sample; lia|apply is_gray_image_sample; lia|reflexivity].
Defined.

(** The scenario of the specification: every pixel differs by 2, the
    error is 4. *)
Lemma mean_squared_error_128_130 :
  exists q, Compare.mean_squared_error Compare.gray_128 Compare.gray_130
            = Ok (Compare.Finite q) /\ q == 4.
Proof. eexists. split; reflexivity. Qed.

(** C6. On two images whose shapes differ [mean_squared_error] raises
    [ValueError]; it returns no value. *)
Theorem mean_squared_error_shape_mismatch (A B : Compare.gray_image) :
  Compare.shape A <> Compare.shape B ->
  Compare.mean_squared_error A B = Raise ValueError.
Proof.
  intros H. unfold Compare.mean_squared_error.
  destruct (Compare.shape_eqb A B) eqn:E; [|reflexivity].
  apply shape_eqb_eq in E. contradiction.
Qed.

Lemma mean_squared_error_shape_mismatch_witness :
  Compare.shape Compare.gray_128 <> Compare.shape Compare.gray_strip /\
  Compare.mean_squared_error Compare.gray_128 Compare.gray_strip
    = Raise ValueError.
Proof.
  split; [discriminate|].
  apply (mean_squared_error_shape_mismatch Compare.gray_128 Compare.gray_strip).
  discriminate.
Defined.

(** ** Text of integers: [int] reads back what [str] and [zfill] print *)

Lemma in_digits_cases (c : ascii) :
  in_digits c = true ->
  is_space c = false /\ Ascii.eqb c minus_char = false /\
  Ascii.eqb c plus_char = false /\ Ascii.eqb c underscore = false /\
  forall d, exists d', uint_of_char c (Some d) = Some d'.
Proof.
  destruct c as [[] [] [] [] [] [] [] []]; intros H;
    try discriminate H; repeat split; intros; eexists; reflexivity.
Qed.

Lemma all_digits_app (s t : string) :
  all_digits (s ++ t) = all_digits s && all_digits t.
Proof.
  induction s as [|c s IH]; simpl; [reflexivity|].
  now rewrite IH, andb_assoc.
Qed.

Lemma all_digits_zeros (k : nat) : all_digits (zeros k) = true.
Proof. induction k; simpl; auto. Qed.

Lemma all_digits_string_of_uint (d : Decimal.uint) :
  all_digits (NilEmpty.string_of_uint d) = true.
Proof. induction d; simpl; auto. Qed.

Lemma str_N_NilEmpty (n : N) : str_N n = NilEmpty.string_of_uint (N.to_uint n).
Proof.
  unfold str_N. pose proof (to_uint_nonnil n) as H.
  destruct (N.to_uint n); [congruence| reflexivity ..].
Qed.

Lemma all_digits_str_N (n : N) : all_digits (str_N n) = true.
Proof. rewrite str_N_NilEmpty. apply all_digits_string_of_uint. Qed.

Lemma str_N_nonempty (n : N) : str_N n <> EmptyString.
Proof.
  rewrite str_N_NilEmpty. pose proof (to_uint_nonnil n) as H.
  destruct (N.to_uint n); [congruence| discriminate ..].
Qed.

Lemma digit_groups_digits : forall s,
  all_digits s = true -> digit_groups s true = Some s.
Proof.
  induction s as [|c s IH]; simpl; intros H; [reflexivity|].
  apply andb_true_iff in H. destruct H as [Hc Hs].
  rewrite Hc, (IH Hs). reflexivity.
Qed.

Lemma digit_groups_digits_start (s : string) :
  all_digits s = true -> s <> EmptyString -> digit_groups s false = Some s.
Proof.
  destruct s as [|c s]; [congruence|]. simpl. intros H _.
  apply andb_true_iff in H. destruct H as [Hc Hs].
  rewrite Hc, (digit_groups_digits s Hs). reflexivity.
Qed.

Lemma uint_of_string_digits : forall s,
  all_digits s = true -> exists d, NilEmpty.uint_of_string s = Some d.
Proof.
  induction s as [|c s IH]; simpl; intros H; [eauto|].
  apply andb_true_iff in H. destruct H as [Hc Hs].
  destruct (IH Hs) as [d ->].
  destruct (in_digits_cases c Hc) as (_ & _ & _ & _ & H). apply H.
Qed.

Lemma uint_of_string_zeros (k : nat) (s : string) (d : Decimal.uint) :
  NilEmpty.uint_of_string s = Some d ->
  exists d', NilEmpty.uint_of_string (zeros k ++ s) = Some d' /\
             N.of_uint d' = N.of_uint d.
Proof.
  intros H. induction k as [|k (d' & E & V)]; simpl; [eauto|].
  rewrite E. exists (Decimal.D0 d'). split; [reflexivity|exact V].
Qed.

Lemma digits_value_padded (k : nat) (n : N) :
  digits_value (zeros k ++ str_N n) = Some n.
Proof.
  unfold digits_value.
  rewrite digit_groups_digits_start.
  - destruct (uint_of_string_zeros k (str_N n) (N.to_uint n)) as (d' & E & V).
    { rewrite str_N_NilEmpty. apply NilEmpty.usu. }
    rewrite E, V, DecimalN.Unsigned.of_to. reflexivity.
  - now rewrite all_digits_app, all_digits_zeros, all_digits_str_N.
  - pose proof (str_N_nonempty n). destruct k; simpl; [assumption|discriminate].
Qed.

Lemma rstrip_no_space : forall s,
  (forall c, In c (list_ascii_of_string s) -> is_space c = false) ->
  rstrip s = s.
Proof.
  induction s as [|c s IH]; intros H; simpl; [reflexivity|].
  rewrite IH by (intros; apply H; simpl; auto).
  destruct s; [|reflexivity].
  rewrite (H c); [reflexivity|simpl; auto].
Qed.

Lemma all_digits_no_space : forall s c,
  all_digits s = true -> In c (list_ascii_of_string s) -> is_space c = false.
Proof.
  induction s as [|a s IH]; simpl; intros c H Hin; [contradiction|].
  apply andb_true_iff in H. destruct H as [Ha Hs].
  destruct Hin as [<-|Hin]; [apply (in_digits_cases a Ha)|eauto].
Qed.

Lemma strip_digits (s : string) : all_digits s = true -> strip s = s.
Proof.
  intros H. unfold strip.
  assert (L : lstrip s = s).
  { destruct s as [|c s]; [reflexivity|]. simpl in *.
    apply andb_true_iff in H. destruct H as [Hc _].
    now rewrite (proj1 (in_digits_cases c Hc)). }
  rewrite L. apply rstrip_no_space. intros c. now apply all_digits_no_space.
Qed.

Lemma strip_minus_digits (s : string) :
  all_digits s = true -> strip (String minus_char s) = String minus_char s.
Proof.
  intros H. unfold strip. simpl lstrip.
  apply rstrip_no_space. intros c [<-|Hin]; [reflexivity|].
  now apply (all_digits_no_space s).
Qed.

Lemma py_int_padded (k : nat) (n : N) :
  py_int (zeros k ++ str_N n) = Ok (Z.of_N n).
Proof.
  assert (D : all_digits (zeros k ++ str_N n) = true)
    by now rewrite all_digits_app, all_digits_zeros, all_digits_str_N.
  unfold py_int. rewrite (strip_digits _ D).
  pose proof (digits_value_padded k n) as V.
  destruct (zeros k ++ str_N n)%string as [|c body] eqn:E.
  - unfold digits_value in V. simpl in V. discriminate.
  - simpl in D. apply andb_true_iff in D. destruct D as [Hc _].
    destruct (in_digits_cases c Hc) as (_ & -> & -> & _).
    rewrite V. reflexivity.
Qed.

Lemma py_int_minus_padded (k : nat) (n : N) :
  py_int (String minus_char (zeros k ++ str_N n)) = Ok (- Z.of_N n)%Z.
Proof.
  assert (D : all_digits (zeros k ++ str_N n) = true)
    by now rewrite all_digits_app, all_digits_zeros, all_digits_str_N.
  unfold py_int. rewrite (strip_minus_digits _ D).
  rewrite Ascii.eqb_refl, digits_value_padded. reflexivity.
Qed.

Lemma zfill_digits (width : nat) (s : string) :
  all_digits s = true -> exists k, zfill width s = (zeros k ++ s)%string.
Proof.
  intros D. unfold zfill.
  destruct (width <=? String.length s)%nat; [exists 0%nat; reflexivity|].
  destruct s as [|c rest].
  - exists (width - 0)%nat. simpl. clear. induction (width - 0)%nat; simpl; congruence.
  - simpl in D. apply andb_true_iff in D. destruct D as [Hc _].
    destruct (in_digits_cases c Hc) as (_ & -> & -> & _). simpl. eauto.
Qed.

Lemma zfill_minus (width : nat) (s : string) :
  exists k, zfill width (String minus_char s) = String minus_char (zeros k ++ s).
Proof.
  unfold zfill.
  destruct (width <=? String.length (String minus_char s))%nat;
    [exists 0%nat; reflexivity|].
  rewrite Ascii.eqb_refl. simpl. eauto.
Qed.

(** [int(str(z).zfill(w)) = z]. *)
Lemma py_int_zfill_str_int (width : nat) (z : Z) :
  py_int (zfill width (str_int z)) = Ok z.
Proof.
  destruct z as [|p|p]; unfold str_int.
  - destruct (zfill_digits width _ (all_digits_str_N (Z.to_N 0))) as [k ->].
    apply py_int_padded.
  - destruct (zfill_digits width _ (all_digits_str_N (Z.to_N (Zpos p)))) as [k ->].
    rewrite py_int_padded. reflexivity.
  - destruct (zfill_minus width (str_N (Npos p))) as [k E].
    change (String "-" (str_N (N.pos p))) with (String minus_char (str_N (N.pos p))).
    rewrite E, py_int_minus_padded. reflexivity.
Qed.

(** ** The comparison loop and the report *)

Lemma mean_squared_error_raises (a b : Compare.gray_image) (e : exn) :
  Compare.mean_squared_error a b = Raise e -> e = ValueError.
Proof.
  unfold Compare.mean_squared_error.
  destruct (negb (Compare.shape_eqb a b)); congruence.
Qed.

Lemma record_metrics_lists (w : Compare.world) (d a : string) (start : Z)
    (acc : Compare.loop_state) (i : nat) (s t : Compare.gray_image)
    (m : Compare.fval) (l : list Compare.log_event) :
  let acc' := Compare.record_metrics w d a start acc i s t m l in
  Compare.result_ssim_list acc' =
    Compare.result_ssim_list acc ++ [Compare.ssim_or_zero w s t] /\
  Compare.result_mse_list acc' = Compare.result_mse_list acc ++ [m].
Proof.
  unfold Compare.record_metrics.
  destruct (Compare.artifacts_outcome w d a start i s t);
    simpl; split; reflexivity.
Qed.

Lemma compare_pair_ssim_list (w : Compare.world) (d a : string) (start : Z)
    (acc : Compare.loop_state) (i : nat) (o t : string) :
  Compare.result_ssim_list (Compare.compare_pair w d a start acc i o t) =
  Compare.result_ssim_list acc ++
    (if Compare.valid_pair w (o, t) then [Compare.ssim_entry w (o, t)] else []).
Proof.
  unfold Compare.compare_pair, Compare.valid_pair, Compare.ssim_entry. simpl.
  destruct (Compare.imread w o) as [src|]; [|simpl; now rewrite app_nil_r].
  destruct (Compare.imread w t) as [tst|]; [|simpl; now rewrite app_nil_r].
  destruct (Compare.frame_shape_eqb src tst) eqn:E; simpl;
    [|now rewrite app_nil_r].
  unfold Compare.after_mse.
  destruct (Compare.mean_squared_error _ _) as [m|e] eqn:M.
  - apply record_metrics_lists.
  - rewrite (mean_squared_error_raises _ _ _ M). apply record_metrics_lists.
Qed.

Lemma compare_loop_ssim_list (w : Compare.world) (d a : string) (start : Z) :
  forall (pairs : list (string * string)) (i : nat) (acc : Compare.loop_state),
  Compare.result_ssim_list (Compare.compare_loop w d a start pairs i acc) =
  Compare.result_ssim_list acc ++
    map (Compare.ssim_entry w) (filter (Compare.valid_pair w) pairs).
Proof.
  induction pairs as [|[o t] pairs IH]; intros i acc; simpl.
  - now rewrite app_nil_r.
  - rewrite IH, compare_pair_ssim_list.
    destruct (Compare.valid_pair w (o, t)); simpl.
    + now rewrite <- app_assoc.
    + now rewrite app_nil_r.
Qed.

(** What a written document holds, in terms of the SSIM list it was
    given. *)
Lemma write_to_xml_file_ok (w : Compare.world) (rf : string)
    (mse_list ssim_list : list Compare.fval) (start : Z) (ef : string)
    (pl : list string) (ev no nt : string) (sp st ca : option string)
    (r : Compare.report) :
  Compare.write_to_xml_file w rf [mse_list; ssim_list] (zfill 4 (str_int start))
    ef pl ev no nt sp st ca = Ok r ->
  Compare.startFrame r = zfill 4 (str_int start) /\
  Compare.endFrame r = ef /\
  Compare.py_min ssim_list = Ok (Compare.minVal r) /\
  Compare.py_max ssim_list = Ok (Compare.maxVal r) /\
  Compare.frames r =
    map (fun x => (Z.of_nat x + start, nth x ssim_list Compare.NaN)%Z)
        (seq 0 (List.length ssim_list)).
Proof.
  unfold Compare.write_to_xml_file. cbn [List.length Nat.ltb Nat.leb nth].
  destruct ssim_list as [|v vs] eqn:L; [discriminate|]. rewrite <- L.
  unfold Compare.build_document.
  destruct (Compare.list_index pl 0) as [p0|]; cbn [bind]; [|discriminate].
  destruct (Compare.list_index pl 1) as [p1|]; cbn [bind]; [|discriminate].
  destruct (Compare.list_index pl 3) as [p3|]; cbn [bind]; [|discriminate].
  destruct (Compare.list_index pl 4) as [p4|]; cbn [bind]; [|discriminate].
  destruct (Compare.py_min ssim_list) as [lo|]; cbn [bind]; [|discriminate].
  destruct (Compare.py_max ssim_list) as [hi|]; cbn [bind]; [|discriminate].
  rewrite py_int_zfill_str_int. cbn [bind].
  destruct (Compare.can_write w _); [|discriminate].
  intros H. inversion H; subst r; clear H. simpl. repeat split.
Qed.

(** What the arguments and the disk determine of a written report. *)
Lemma render_compare_do_it_report (w : Compare.world) (folder : string)
    (origs tests : list string) (po pt no nt : string)
    (run : Compare.run) (r : Compare.report) :
  Compare.render_compare_do_it w folder origs tests po pt no nt = Ok run ->
  Compare.xml_report run = Some r ->
  let entries := map (Compare.ssim_entry w)
                     (filter (Compare.valid_pair w) (combine origs tests)) in
  exists start,
    Compare.first_frame_number (hd "" origs) = Ok start /\
    List.length origs = List.length tests /\
    Compare.result_ssim_list (Compare.locals run) = entries /\
    Compare.startFrame r = zfill 4 (str_int start) /\
    Compare.endFrame r =
      zfill 4 (str_int (Z.of_nat (List.length origs) + start - 1)) /\
    Compare.py_min entries = Ok (Compare.minVal r) /\
    Compare.py_max entries = Ok (Compare.maxVal r) /\
    Compare.frames r =
      map (fun x => (Z.of_nat x + start, nth x entries Compare.NaN)%Z)
          (seq 0 (List.length entries)).
Proof.
  unfold Compare.render_compare_do_it, Compare.stop_early.
  destruct origs as [|o origs]; [intros H; inversion H; subst; discriminate|].
  destruct tests as [|t tests]; [intros H; inversion H; subst; discriminate|].
  destruct (List.length (o :: origs) =? List.length (t :: tests))%nat eqn:L;
    cbn [negb]; [|intros H; inversion H; subst; discriminate].
  apply Nat.eqb_eq in L.
  destruct (Compare.first_frame_number o) as [start|] eqn:S;
    [|intros H; inversion H; subst; discriminate].
  destruct (Compare.mkdir w (Compare.results_folder folder));
    [|intros H; inversion H; subst; discriminate].
  destruct (Compare.extract_metadata_from_path _) as [[[ev sp] st] ca].
  destruct (Compare.mkdir w (Compare.diff_images_folder folder));
    [|intros H; inversion H; subst; discriminate].
  destruct (Compare.mkdir w (Compare.alpha_images_folder folder));
    [|intros H; inversion H; subst; discriminate].
  set (final := Compare.compare_loop w _ _ start _ 0 Compare.loop_start).
  assert (F : Compare.result_ssim_list final =
              map (Compare.ssim_entry w)
                (filter (Compare.valid_pair w) (combine (o :: origs) (t :: tests)))).
  { unfold final. rewrite compare_loop_ssim_list. reflexivity. }
  destruct (Compare.result_ssim_list final) as [|v vs] eqn:E;
    [intros H; inversion H; subst; discriminate|].
  destruct (Compare.write_to_xml_file _ _ _ _ _ _ _ _ _ _ _ _) as [r'|] eqn:W;
    [|intros H; inversion H; subst; discriminate].
  intros H X. inversion H; subst run; clear H. simpl in X.
  inversion X; subst r'; clear X.
  apply write_to_xml_file_ok in W.
  destruct W as (W1 & W2 & W3 & W4 & W5).
  cbv zeta. exists start. rewrite <- F.
  cbn [hd Compare.locals]. rewrite E.
  repeat split; try assumption.
Qed.

Lemma filter_length_lt {A : Type} (f : A -> bool) : forall (l : list A) (x : A),
  In x l -> f x = false -> (List.length (filter f l) < List.length l)%nat.
Proof.
  induction l as [|a l IH]; intros x Hin Hx; [contradiction|]. simpl.
  pose proof (filter_length_le f l) as LE.
  destruct Hin as [->|Hin].
  - rewrite Hx. lia.
  - specialize (IH x Hin Hx). destruct (f a); simpl; lia.
Qed.

Lemma filter_nth_error {A : Type} (f : A -> bool) : forall (l : list A) (k : nat) (x : A),
  nth_error l k = Some x -> f x = true ->
  nth_error (filter f l) (List.length (filter f (firstn k l))) = Some x.
Proof.
  induction l as [|a l IH]; intros k x H Hx.
  - destruct k; discriminate.
  - destruct k as [|k]; simpl in H.
    + inversion H; subst. simpl. rewrite Hx. reflexivity.
    + simpl. destruct (f a); simpl; auto.
Qed.

Lemma frames_nth_error (start : Z) (entries : list Compare.fval) (pos : nat)
    (v : Compare.fval) :
  nth_error entries pos = Some v ->
  nth_error (map (fun x => (Z.of_nat x + start, nth x entries Compare.NaN)%Z)
                 (seq 0 (List.length entries))) pos
  = Some ((start + Z.of_nat pos)%Z, v).
Proof.
  intros H.
  assert (L : (pos < List.length entries)%nat)
    by (apply nth_error_Some; congruence).
  rewrite nth_error_map, nth_error_seq.
  destruct (Nat.ltb_spec pos (List.length entries)) as [_|]; [|lia].
  simpl. rewrite (nth_error_nth _ _ _ H). f_equal. f_equal. lia.
Qed.



(** C9. The report's endFrame is startFrame plus the number of input
    pairs minus one, whatever was skipped; when some pair was skipped
    (an image did not load, or the dimensions differ) the last
    frameIndex, startFrame plus the number of entries minus one, is
    smaller than endFrame. *)
Theorem report_end_frame_counts_all_pairs (w : Compare.world) (folder : string)
    (origs tests : list string) (po pt no nt : string)
    (run : Compare.run) (r : Compare.report) :
  Compare.render_compare_do_it w folder origs tests po pt no nt = Ok run ->
  Compare.xml_report run = Some r ->
  exists start stop,
    py_int (Compare.startFrame r) = Ok start /\
    py_int (Compare.endFrame r) = Ok stop /\
    stop = (start + Z.of_nat (List.length origs) - 1)%Z /\
    ((exists pair, In pair (combine origs tests) /\
                   Compare.valid_pair w pair = false) ->
     (start + Z.of_nat (List.length (Compare.frames r)) - 1 < stop)%Z).
Proof.
  intros H X.
  destruct (render_compare_do_it_report _ _ _ _ _ _ _ _ _ _ H X)
    as (start & _ & L & _ & SF & EF & _ & _ & F).
  exists start, (start + Z.of_nat (List.length origs) - 1)%Z.
  rewrite SF, EF, !py_int_zfill_str_int.
  split; [reflexivity|]. split; [f_equal; lia|]. split; [reflexivity|].
  intros (pair & Hin & Hv).
  rewrite F, !length_map, length_seq.
  pose proof (filter_length_lt _ _ _ Hin Hv) as LT.
  rewrite length_combine, <- L, Nat.min_id in LT. lia.
Qed.

Lemma report_end_frame_counts_all_pairs_witness :
  exists run r,
    Compare.render_compare_do_it Compare.sample_world Compare.sample_folder
      Compare.sample_orig Compare.sample_tester "/r/v1" "/r/v2" "v1" "v2"
    = Ok run /\
    Compare.xml_report run = Some r /\
    exists start stop,
      py_int (Compare.startFrame r) = Ok start /\
      py_int (Compare.endFrame r) = Ok stop /\
      stop = (start + Z.of_nat (List.length Compare.sample_orig) - 1)%Z /\
      ((exists pair,
          In pair (combine Compare.sample_orig Compare.sample_tester) /\
          Compare.valid_pair Compare.sample_world pair = false) ->
       (start + Z.of_nat (List.length (Compare.frames r)) - 1 < stop)%Z).
Proof.
  eexists. eexists.
  split; [vm_compute; reflexivity|]. split; [reflexivity|].
  apply (report_end_frame_counts_all_pairs Compare.sample_world
           Compare.sample_folder Compare.sample_orig Compare.sample_tester
           "/r/v1" "/r/v2" "v1" "v2" _ _ ltac:(vm_compute; reflexivity) eq_refl).
Defined.

(** ** Metric failures *)

Lemma ssim_entry_finite (w : Compare.world) (pair : string * string) :
  Compare.valid_pair w pair = true -> Compare.is_finite (Compare.ssim_entry w pair).
Proof.
  unfold Compare.valid_pair, Compare.ssim_entry, Compare.ssim_or_zero.
  destruct (Compare.imread w (fst pair)); [|discriminate].
  destruct (Compare.imread w (snd pair)); [|discriminate].
  intros _. destruct (Compare.ssim w _ _); exact I.
Qed.

Lemma entries_finite (w : Compare.world) (pairs : list (string * string)) :
  Forall Compare.is_finite
    (map (Compare.ssim_entry w) (filter (Compare.valid_pair w) pairs)).
Proof.
  apply Forall_map, Forall_forall. intros pair Hin.
  apply filter_In in Hin. now apply ssim_entry_finite.
Qed.

(** [min] of finite values is finite and below each of them. *)
Lemma fold_min_finite : forall (l : list Compare.fval) (q0 : Q),
  Forall Compare.is_finite l ->
  exists m,
    fold_left (fun m y => if Compare.flt y m then y else m) l (Compare.Finite q0)
      = Compare.Finite m /\
    m <= q0 /\
    forall x, In (Compare.Finite x) l -> m <= x.
Proof.
  induction l as [|v l IH]; intros q0 HF.
  - exists q0. split; [reflexivity|]. split; [apply Qle_refl|]. intros x [].
  - inversion HF as [|? ? Hv Hl]; subst. destruct v as [y| |]; try contradiction.
    simpl. destruct (Qle_bool q0 y) eqn:E; simpl.
    + apply Qle_bool_iff in E.
      destruct (IH q0 Hl) as (m & Hm & Hq & Hall).
      exists m. split; [exact Hm|]. split; [exact Hq|].
      intros x [Hx|Hx]; [|now apply Hall].
      inversion Hx; subst. now apply Qle_trans with q0.
    + assert (Hlt : y < q0).
      { apply Qnot_le_lt. intros C. apply Qle_bool_iff in C. congruence. }
      destruct (IH y Hl) as (m & Hm & Hq & Hall).
      exists m. split; [exact Hm|].
      split; [apply Qle_trans with y; [exact Hq|now apply Qlt_le_weak]|].
      intros x [Hx|Hx]; [|now apply Hall].
      inversion Hx; subst. exact Hq.
Qed.

Lemma py_min_finite (l : list Compare.fval) (v : Compare.fval) (x : Q) :
  Forall Compare.is_finite l -> Compare.py_min l = Ok v -> In (Compare.Finite x) l ->
  exists m, v = Compare.Finite m /\ m <= x.
Proof.
  intros HF Hmin Hin. destruct l as [|a l]; [contradiction|].
  inversion HF as [|? ? Ha Hl]; subst. destruct a as [q0| |]; try contradiction.
  simpl in Hmin. destruct (fold_min_finite l q0 Hl) as (m & Hm & Hq & Hall).
  rewrite Hm in Hmin. inversion Hmin; subst. exists m. split; [reflexivity|].
  destruct Hin as [Hx|Hx]; [inversion Hx; subst; exact Hq|now apply Hall].
Qed.

(** C10. A pair that loaded with equal dimensions and on which the
    SSIM call raises is not skipped: the loop body appends 0.0 to the
    SSIM list and an MSE value to the MSE list, and the failure counter
    moves only if the later artifact stage raises; the [try] around
    the MSE call does the same with 0.0 for the MSE list.  In the
    written report the frame has an entry with value 0.0 and minVal is
    at most 0.0. *)
Theorem metric_failure_recorded_as_zero (w : Compare.world) (folder : string)
    (origs tests : list string) (po pt no nt : string)
    (run : Compare.run) (r : Compare.report)
    (k : nat) (o t : string) (src tst : Compare.bgr_image) (e : exn) :
  Compare.render_compare_do_it w folder origs tests po pt no nt = Ok run ->
  Compare.xml_report run = Some r ->
  nth_error (combine origs tests) k = Some (o, t) ->
  Compare.imread w o = Some src ->
  Compare.imread w t = Some tst ->
  Compare.frame_shape_eqb src tst = true ->
  Compare.ssim w (Compare.cvtColor w src) (Compare.cvtColor w tst) = Raise e ->
  (forall d a start acc,
     let acc' := Compare.compare_pair w d a start acc k o t in
     Compare.result_ssim_list acc' =
       Compare.result_ssim_list acc ++ [Compare.Finite 0] /\
     List.length (Compare.result_mse_list acc') =
       S (List.length (Compare.result_mse_list acc)) /\
     Compare.failed_comparisons acc' =
       (Compare.failed_comparisons acc +
        match Compare.artifacts_outcome w d a start k
                (Compare.cvtColor w src) (Compare.cvtColor w tst) with
        | Ok _ => 0
        | Raise _ => 1
        end)%nat) /\
  (forall d a start acc i s s',
     let acc' := Compare.after_mse w d a start acc i s s' (Raise ValueError) in
     Compare.result_mse_list acc' =
       Compare.result_mse_list acc ++ [Compare.Finite 0] /\
     List.length (Compare.result_ssim_list acc') =
       S (List.length (Compare.result_ssim_list acc))) /\
  (exists pos index,
     nth_error (Compare.frames r) pos = Some (index, Compare.Finite 0)) /\
  (exists m, Compare.minVal r = Compare.Finite m /\ m <= 0).
Proof.
  intros H X Hk Ho Ht Hs He.
  assert (V : Compare.valid_pair w (o, t) = true).
  { unfold Compare.valid_pair. simpl. now rewrite Ho, Ht. }
  assert (Z0 : Compare.ssim_entry w (o, t) = Compare.Finite 0).
  { unfold Compare.ssim_entry, Compare.ssim_or_zero. simpl.
    now rewrite Ho, Ht, He. }
  split; [|split; [|split]].
  - intros d a start acc. cbv zeta.
    unfold Compare.compare_pair. rewrite Ho, Ht, Hs. cbn [negb].
    unfold Compare.after_mse.
    destruct (Compare.mean_squared_error _ _) as [m|e'] eqn:M;
      [|rewrite (mean_squared_error_raises _ _ _ M)];
      unfold Compare.record_metrics, Compare.ssim_or_zero; rewrite He;
      destruct (Compare.artifacts_outcome w d a start k _ _); simpl;
      rewrite ?length_app; simpl; repeat split; lia.
  - intros d a start acc i s s'. cbv zeta. unfold Compare.after_mse.
    unfold Compare.record_metrics.
    destruct (Compare.artifacts_outcome w d a start i s s'); simpl;
      rewrite ?length_app; simpl; split; try reflexivity; lia.
  - destruct (render_compare_do_it_report _ _ _ _ _ _ _ _ _ _ H X)
      as (start & _ & _ & _ & _ & _ & _ & _ & F).
    pose proof (filter_nth_error (Compare.valid_pair w) _ _ _ Hk V) as N.
    apply (map_nth_error (Compare.ssim_entry w)) in N. rewrite Z0 in N.
    eexists. eexists. rewrite F. apply frames_nth_error. exact N.
  - destruct (render_compare_do_it_report _ _ _ _ _ _ _ _ _ _ H X)
      as (start & _ & _ & _ & _ & _ & Mn & _ & _).
    apply (py_min_finite _ _ 0 (entries_finite w _) Mn).
    rewrite <- Z0. apply in_map. apply filter_In. split; [|exact V].
    now apply nth_error_In with k.
Qed.

Lemma metric_failure_recorded_as_zero_witness :
  exists run r,
    Compare.render_compare_do_it Compare.sample_world Compare.sample_folder
      Compare.sample_orig Compare.sample_tester "/r/v1" "/r/v2" "v1" "v2"
    = Ok run /\
    Compare.xml_report run = Some r /\
    Compare.minVal r = Compare.Finite 0 /\
    nth_error (Compare.frames r) 1 = Some (6%Z, Compare.Finite 0) /\
    (exists pos index,
       nth_error (Compare.frames r) pos = Some (index, Compare.Finite 0)) /\
    (exists m, Compare.minVal r = Compare.Finite m /\ m <= 0).
Proof.
  eexists. eexists.
  split; [vm_compute; reflexivity|]. split; [reflexivity|].
  split; [reflexivity|]. split; [reflexivity|].
  apply (metric_failure_recorded_as_zero Compare.sample_world
           Compare.sample_folder Compare.sample_orig Compare.sample_tester
           "/r/v1" "/r/v2" "v1" "v2" _ _ 2 "/r/v1/0007.jpg" "/r/v2/0007.jpg"
           (Compare.uniform_frame 10) (Compare.uniform_frame 10) ValueError
           ltac:(vm_compute; reflexivity) eq_refl eq_refl eq_refl eq_refl
           eq_refl eq_refl).
Defined.

(** ** Empty metric lists *)





(** ** More on frame names and event names *)

Lemma in_digits_not_F (c : ascii) : in_digits c = true -> Ascii.eqb c "F" = false.
Proof.
  destruct c as [[] [] [] [] [] [] [] []]; intros H;
    try discriminate H; reflexivity.
Qed.

Lemma split_on_F_digits : forall ds,
  all_digits ds = true -> split_on "F" ds = [ds].
Proof.
  induction ds as [|c ds IH]; simpl; intros H; [reflexivity|].
  apply andb_true_iff in H. destruct H as [Hc Hs].
  now rewrite (in_digits_not_F c Hc), (IH Hs).
Qed.

Lemma py_int_digits (ds : string) :
  all_digits ds = true -> ds <> EmptyString -> exists z, py_int ds = Ok z.
Proof.
  intros D NE. unfold py_int. rewrite (strip_digits ds D).
  destruct ds as [|c body]; [congruence|].
  pose proof D as D'. simpl in D'. apply andb_true_iff in D'.
  destruct D' as [Hc _].
  destruct (in_digits_cases c Hc) as (_ & -> & -> & _).
  unfold digits_value. rewrite (digit_groups_digits_start _ D NE).
  destruct (uint_of_string_digits _ D) as [d ->]. simpl. eauto.
Qed.

(** Every name made of [F] and digits passes the name test of the code:
    the code accepts more than such names, not less. *)
Lemma F_digits_frame_name_ok (frame_name : string) :
  Localizer.is_F_digits frame_name = true ->
  Localizer.frame_name_ok frame_name = true.
Proof.
  unfold Localizer.is_F_digits.
  destruct frame_name as [|c ds]; [discriminate|].
  destruct (Ascii.eqb c "F") eqn:E.
  - apply Ascii.eqb_eq in E. subst c.
    destruct ds as [|d ds]; [discriminate|]. intros D.
    unfold Localizer.frame_name_ok.
    change (split_on "F" (String "F" (String d ds)))
      with (EmptyString :: split_on "F" (String d ds)).
    rewrite (split_on_F_digits _ D). cbn [List.length Nat.eqb last].
    destruct (py_int_digits (String d ds) D ltac:(discriminate)) as [z ->].
    reflexivity.
  - intros H. exfalso. revert E H.
    destruct c as [[] [] [] [] [] [] [] []]; simpl; congruence.
Qed.

Lemma is_event_iff_long_prefix_witness :
  Localizer.is_event Localizer.event_pattern
    "/some/path/E12_34_56_78_90_12__" = Ok true /\
  (String.length Localizer.event_pattern
     <= String.length (basename "/some/path/E12_34_56_78_90_12__"))%nat /\
  exists n,
    Localizer.longest_matching_prefix Localizer.event_pattern
      (basename "/some/path/E12_34_56_78_90_12__") n /\ (20 <= n)%nat.
Proof.
  split; [reflexivity|].
  apply (is_event_iff_long_prefix Localizer.event_pattern
           "/some/path/E12_34_56_78_90_12__").
  reflexivity.
Defined.


(** ** Event names: what the 20-character threshold implies *)

Lemma longest_matching_prefix_le (P B : string) (n : nat) :
  Localizer.longest_matching_prefix P B n ->
  (n <= String.length P)%nat /\ (n <= String.length B)%nat.
Proof.
  intros [H _]. destruct n as [|n]; [lia|].
  destruct (H n ltac:(lia)) as (p & c & Hp & Hc & _).
  apply get_some_lt in Hp. apply get_some_lt in Hc. lia.
Qed.

(** [is_event] when the basename is long enough: the loop's count decides. *)
Lemma is_event_long_basename (P test_path : string) :
  (String.length P <= String.length (basename test_path))%nat ->
  exists n,
    Localizer.longest_matching_prefix P (basename test_path) n /\
    Localizer.is_event P test_path = Ok (20 <=? n)%nat.
Proof.
  intros L. unfold Localizer.is_event.
  destruct (Nat.ltb_spec (String.length (basename test_path)) (String.length P));
    [lia|].
  destruct (is_event_loop_longest P (basename test_path) (String.length P) 0
              ltac:(lia) L ltac:(intros; lia)) as (n & Hn & Hlong).
  rewrite Hn. exists n. split; [exact Hlong|reflexivity].
Qed.

(** A pattern of fewer than 20 characters classifies no directory as an
    event: the loop runs over the pattern only, so the count stays
    below the threshold. *)
Theorem is_event_short_pattern (P test_path : string) :
  (String.length P < 20)%nat ->
  Localizer.is_event P test_path = Ok false.
Proof.
  intros S.
  destruct (Nat.lt_ge_cases (String.length (basename test_path)) (String.length P))
    as [L|L].
  - unfold Localizer.is_event. apply Nat.ltb_lt in L. now rewrite L.
  - destruct (is_event_long_basename P test_path L) as (n & Hn & ->).
    apply longest_matching_prefix_le in Hn. f_equal. apply Nat.leb_gt. lia.
Qed.

Lemma is_event_short_pattern_witness :
  (String.length "E##_##_##__" < 20)%nat /\
  Localizer.is_event "E##_##_##__" "/some/path/E12_34_56__" = Ok false.
Proof.
  split; [simpl; lia|].
  apply (is_event_short_pattern "E##_##_##__" "/some/path/E12_34_56__").
  simpl; lia.
Defined.

Lemma contains_slash_existsb (s : string) :
  existsb (Ascii.eqb slash) (list_ascii_of_string s) = contains slash s.
Proof.
  induction s as [|a s IH]; [reflexivity|].
  cbn [list_ascii_of_string existsb contains].
  now rewrite IH, (Ascii.eqb_sym slash a).
Qed.

Lemma contains_app (c : ascii) (s t : string) :
  contains c (s ++ t) = contains c s || contains c t.
Proof.
  induction s as [|a s IH]; simpl; [reflexivity|].
  now rewrite IH, orb_assoc.
Qed.

Lemma basename_no_slash (s : string) : contains slash s = false -> basename s = s.
Proof.
  destruct s as [|a s]; simpl; [reflexivity|]. intros H.
  apply orb_false_iff in H. destruct H as [Ha Hs].
  now rewrite contains_slash_existsb, Hs, Ha.
Qed.

Lemma basename_app (p s : string) :
  contains slash s = false -> basename (p ++ s) = (basename p ++ s)%string.
Proof.
  intros Hs. induction p as [|a p IH]; [now apply basename_no_slash|].
  simpl. rewrite !contains_slash_existsb, contains_app, Hs, orb_false_r.
  destruct (contains slash p); [exact IH|].
  destruct (Ascii.eqb a slash); reflexivity.
Qed.

Lemma length_append (s t : string) :
  String.length (s ++ t) = (String.length s + String.length t)%nat.
Proof. induction s as [|a s IH]; simpl; [reflexivity|now rewrite IH]. Qed.

(** Characters after the matched part play no role: a name that is an
    event stays one when text without ['/'] is appended to it. *)
Theorem is_event_ignores_trailing_text (P test_path suffix : string) :
  contains slash suffix = false ->
  Localizer.is_event P test_path = Ok true ->
  Localizer.is_event P (test_path ++ suffix) = Ok true.
Proof.
  intros Hs H.
  assert (L : (String.length P <= String.length (basename test_path))%nat).
  { destruct (Nat.lt_ge_cases (String.length (basename test_path))
                (String.length P)) as [L|L]; [|exact L].
    unfold Localizer.is_event in H. apply Nat.ltb_lt in L.
    rewrite L in H. discriminate. }
  destruct (is_event_long_basename P test_path L) as (n & Hn & E).
  rewrite E in H. assert (N20 : (20 <= n)%nat) by (apply Nat.leb_le; congruence).
  assert (L' : (String.length P <= String.length (basename (test_path ++ suffix)))%nat).
  { rewrite (basename_app _ _ Hs), length_append. lia. }
  destruct (is_event_long_basename P (test_path ++ suffix) L') as (m & Hm & ->).
  f_equal. apply Nat.leb_le.
  destruct (Nat.lt_ge_cases m n) as [LT|GE]; [exfalso|lia].
  rewrite (basename_app _ _ Hs) in Hm.
  destruct Hn as [Hpre _]. destruct (Hpre m LT) as (p & c & Hp & Hc & Hpc).
  assert (Hc' : String.get m (basename test_path ++ suffix) = Some c).
  { rewrite <- append_correct1; [exact Hc|]. now apply get_some_lt in Hc. }
  destruct Hm as [_ [Hm|[Hm|(p' & c' & Hp' & Hc'' & Hm)]]]; congruence.
Qed.

Lemma is_event_ignores_trailing_text_witness :
  contains slash "_take2" = false /\
  Localizer.is_event Localizer.event_pattern "/some/path/E12_34_56_78_90_12__"
    = Ok true /\
  Localizer.is_event Localizer.event_pattern
    ("/some/path/E12_34_56_78_90_12__" ++ "_take2") = Ok true.
Proof.
  split; [reflexivity|]. split; [reflexivity|].
  apply (is_event_ignores_trailing_text Localizer.event_pattern
           "/some/path/E12_34_56_78_90_12__" "_take2"); reflexivity.
Defined.

(** ** Frame names: what the name test accepts *)

Lemma split_on_nonempty (c : ascii) (s : string) : split_on c s <> [].
Proof.
  destruct s as [|a s]; simpl; [discriminate|].
  destruct (Ascii.eqb a c); [discriminate|].
  destruct (split_on c s); discriminate.
Qed.

Lemma split_on_one (c : ascii) : forall s b,
  split_on c s = [b] <-> s = b /\ contains c s = false.
Proof.
  induction s as [|a s IH]; intros b; simpl.
  - split; [intros H; inversion H; auto|intros [<- _]; reflexivity].
  - pose proof (split_on_nonempty c s) as NE.
    destruct (Ascii.eqb a c) eqn:E; simpl.
    + split; [intros H|intros [_ H]; discriminate].
      inversion H. congruence.
    + destruct (split_on c s) as [|p ps] eqn:S; [congruence|].
      split.
      * intros H. inversion H; subst.
        destruct (proj1 (IH p) eq_refl) as [-> Hc]. auto.
      * intros [<- H].
        pose proof (proj2 (IH s) (conj eq_refl H)) as Q.
        inversion Q; subst. reflexivity.
Qed.

Lemma split_on_two (c : ascii) : forall s a b,
  split_on c s = [a; b] <->
  s = (a ++ String c b)%string /\ contains c a = false /\ contains c b = false.
Proof.
  induction s as [|x s IH]; intros a b; simpl.
  - split; [discriminate|]. intros [H _]. destruct a; discriminate.
  - pose proof (split_on_nonempty c s) as NE.
    destruct (Ascii.eqb x c) eqn:E.
    + apply Ascii.eqb_eq in E. subst x. split.
      * intros H. inversion H as [[Ha Hs]]. apply split_on_one in Hs.
        destruct Hs as [-> Hc]. auto.
      * intros (H & Ha & Hb). destruct a as [|y a].
        -- simpl in H. inversion H; subst. f_equal. apply split_on_one. auto.
        -- simpl in H. inversion H; subst. simpl in Ha.
           rewrite Ascii.eqb_refl in Ha. discriminate.
    + destruct (split_on c s) as [|p ps] eqn:S; [congruence|]. split.
      * intros H. inversion H; subst.
        destruct (proj1 (IH p b) eq_refl) as (-> & Hp & Hb).
        simpl. rewrite E. auto.
      * intros (H & Ha & Hb). destruct a as [|y a].
        -- simpl in H. inversion H; subst. rewrite Ascii.eqb_refl in E.
           discriminate.
        -- simpl in H. inversion H; subst. simpl in Ha.
           apply orb_false_iff in Ha. destruct Ha as [_ Ha].
           pose proof (proj2 (IH a b) (conj eq_refl (conj Ha Hb))) as Q.
           inversion Q; subst. reflexivity.
Qed.

(** The name test of [get_json_files] accepts exactly the names with one
    ['F'] whose right-hand piece [int] can read; what stands before the
    ['F'] is not looked at. *)
Theorem frame_name_ok_iff (frame_name : string) :
  Localizer.frame_name_ok frame_name = true <->
  exists a b,
    frame_name = (a ++ String "F" b)%string /\
    contains "F" a = false /\ contains "F" b = false /\
    exists z, py_int b = Ok z.
Proof.
  unfold Localizer.frame_name_ok. split.
  - destruct (split_on "F" frame_name) as [|a [|b [|c l]]] eqn:S;
      cbn [List.length Nat.eqb last]; try discriminate.
    destruct (py_int b) as [z|] eqn:Z; [|discriminate]. intros _.
    apply split_on_two in S. destruct S as (-> & Ha & Hb).
    exists a, b. eauto.
  - intros (a & b & H & Ha & Hb & z & Hz).
    rewrite (proj2 (split_on_two "F" frame_name a b) (conj H (conj Ha Hb))).
    cbn [List.length Nat.eqb last]. now rewrite Hz.
Qed.

(** ** Discovery without folder creation *)

Lemma iterdir_In (fs0 : filesystem) (d : path) (items : list path) (p : path) :
  iterdir fs0 d = Ok items -> In p items ->
  p <> [] /\ parent p = d /\ In p (map fst fs0) /\ is_dir fs0 d = true.
Proof.
  unfold iterdir. destruct (is_dir fs0 d) eqn:D; [|discriminate].
  intros H Hin. inversion H; subst; clear H.
  apply in_map_iff in Hin. destruct Hin as (e & <- & He).
  apply filter_In in He. destruct He as [He Hf].
  destruct (fst e) as [|c q] eqn:F; [discriminate|].
  apply path_eqb_eq in Hf.
  repeat split; try assumption; try discriminate.
  rewrite <- F. now apply in_map.
Qed.

Lemma child_of_parent (p : path) : p <> [] -> p = parent p // name p.
Proof. intros H. unfold parent, name, child. now apply app_removelast_last. Qed.

Lemma parent_child (p : path) (n : string) : parent (p // n) = p.
Proof. unfold parent, child. apply removelast_last. Qed.

Lemma traverse_stadium_loop_found (fs0 : filesystem) (pat : string) :
  forall (items : list path) (e : path),
  Localizer.traverse_stadium_loop fs0 pat items = Ok (Some e) ->
  In e items /\ is_dir fs0 e = true /\
  Localizer.is_event pat (path_str e) = Ok true.
Proof.
  induction items as [|item rest IH]; intros e H; simpl in H; [discriminate|].
  destruct (is_dir fs0 item) eqn:D; cbn [negb] in H.
  - destruct (Localizer.is_event pat (path_str item)) as [[|]|] eqn:E;
      cbn [bind] in H; try discriminate.
    + inversion H; subst. simpl. auto.
    + destruct (IH e H) as (? & ? & ?). simpl. auto.
  - destruct (IH e H) as (? & ? & ?). simpl. auto.
Qed.

(** Without folder creation the traversal of a sport-type directory reads
    the tree only: the object is left as it was, and the answer is the
    same from any object that holds the same tree. *)
Lemma traverse_sport_type_loop_read_only (pat : string) :
  forall (items : list path) (st : Localizer.localizer),
  (forall r st', Localizer.traverse_sport_type_loop pat false items st
                 = Ok (r, st') -> st' = st) /\
  (forall st2, Localizer.fs st2 = Localizer.fs st ->
     Localizer.traverse_sport_type_loop pat false items st2 =
     match Localizer.traverse_sport_type_loop pat false items st with
     | Ok (r, _) => Ok (r, st2)
     | Raise e => Raise e
     end).
Proof.
  induction items as [|item rest IH]; intros st.
  - split; [intros r st' H; inversion H; reflexivity|reflexivity].
  - destruct (IH st) as [IH1 IH2]. split.
    + intros r st' H. cbn [Localizer.traverse_sport_type_loop] in H.
      destruct (negb (is_dir (Localizer.fs st) item)); [eauto|].
      destruct (Localizer.is_event pat (path_str item)) as [[|]|];
        try discriminate.
      * inversion H; reflexivity.
      * unfold Localizer.mbind, Localizer.traverse_stadium in H.
        destruct (iterdir (Localizer.fs st) item) as [its|]; cbn [bind] in H;
          [|discriminate].
        destruct (Localizer.traverse_stadium_loop _ _ its) as [[e|]|];
          cbn [bind] in H; try discriminate.
        -- inversion H; reflexivity.
        -- eauto.
    + intros st2 F. cbn [Localizer.traverse_sport_type_loop]. rewrite F.
      destruct (negb (is_dir (Localizer.fs st) item)); [now apply IH2|].
      destruct (Localizer.is_event pat (path_str item)) as [[|]|];
        try reflexivity.
      unfold Localizer.mbind, Localizer.traverse_stadium. rewrite F.
      destruct (iterdir (Localizer.fs st) item) as [its|]; cbn [bind];
        [|reflexivity].
      destruct (Localizer.traverse_stadium_loop _ _ its) as [[e|]|];
        cbn [bind]; try reflexivity.
      now apply IH2.
Qed.

Lemma traverse_sport_type_loop_found (pat : string) :
  forall (items : list path) (st st' : Localizer.localizer) (e : path),
  Localizer.traverse_sport_type_loop pat false items st = Ok (Some e, st') ->
  (In e items \/ (e <> [] /\ In (parent e) items)) /\
  is_dir (Localizer.fs st) e = true /\
  Localizer.is_event pat (path_str e) = Ok true.
Proof.
  induction items as [|item rest IH]; intros st st' e H;
    cbn [Localizer.traverse_sport_type_loop] in H.
  - inversion H.
  - assert (Rest : forall s s',
              Localizer.traverse_sport_type_loop pat false rest s = Ok (Some e, s') ->
              Localizer.fs s = Localizer.fs st ->
              (In e (item :: rest) \/ (e <> [] /\ In (parent e) (item :: rest))) /\
              is_dir (Localizer.fs st) e = true /\
              Localizer.is_event pat (path_str e) = Ok true).
    { intros s s' Hs F. destruct (IH _ _ _ Hs) as ([?|[? ?]] & ? & ?);
        rewrite <- F; simpl; auto. }
    destruct (is_dir (Localizer.fs st) item) eqn:D; cbn [negb] in H;
      [|now apply (Rest st st')].
    destruct (Localizer.is_event pat (path_str item)) as [[|]|] eqn:E;
      try discriminate.
    + inversion H; subst. simpl. auto.
    + unfold Localizer.mbind, Localizer.traverse_stadium in H.
      destruct (iterdir (Localizer.fs st) item) as [its|] eqn:I; cbn [bind] in H;
        [|discriminate].
      destruct (Localizer.traverse_stadium_loop _ _ its) as [[e'|]|] eqn:T;
        cbn [bind] in H; try discriminate.
      * inversion H; subst.
        destruct (traverse_stadium_loop_found _ _ _ _ T) as (Hin & Hd & He).
        destruct (iterdir_In _ _ _ _ I Hin) as (Hne & Hp & _).
        split; [right; split; [exact Hne|rewrite Hp; simpl; auto]|auto].
      * now apply (Rest st st').
Qed.

Lemma traverse_sport_type_read_only (item : path) (pat : string)
    (st st' : Localizer.localizer) (r : option path) :
  Localizer.traverse_sport_type item pat false st = Ok (r, st') -> st' = st.
Proof.
  unfold Localizer.traverse_sport_type.
  destruct (iterdir (Localizer.fs st) item); [|discriminate].
  apply (proj1 (traverse_sport_type_loop_read_only pat _ st)).
Qed.

Lemma event_under_functional (fs0 : filesystem) (pat : string) (item e1 e2 : path) :
  event_under fs0 pat item e1 -> event_under fs0 pat item e2 -> e1 = e2.
Proof.
  intros [[E1 ->]|[E1 (s1 & s1' & F1 & T1)]] [[E2 ->]|[E2 (s2 & s2' & F2 & T2)]];
    try congruence.
  unfold Localizer.traverse_sport_type in T1, T2.
  rewrite F1 in T1. rewrite F2 in T2.
  destruct (iterdir fs0 item) as [its|]; [|discriminate].
  rewrite (proj2 (traverse_sport_type_loop_read_only pat its s1) s2
             ltac:(congruence)) in T2.
  rewrite T1 in T2. congruence.
Qed.

Lemma event_under_facts (fs0 : filesystem) (pat : string) (item e : path) :
  event_under fs0 pat item e ->
  is_dir fs0 item = true ->
  Localizer.is_event pat (path_str e) = Ok true /\
  is_dir fs0 e = true /\
  (e = item \/ (exists x, e = item // x) \/ (exists x y, e = item // x // y)).
Proof.
  intros [[E ->]|[E (s & s' & F & T)]] D; [auto|].
  unfold Localizer.traverse_sport_type in T. rewrite F in T.
  destruct (iterdir fs0 item) as [its|] eqn:I; [|discriminate].
  destruct (traverse_sport_type_loop_found _ _ _ _ _ T) as (Hin & Hd & He).
  rewrite F in Hd. split; [exact He|]. split; [exact Hd|]. right.
  destruct Hin as [Hin|[Hne Hin]].
  - destruct (iterdir_In _ _ _ _ I Hin) as (Hne & Hp & _).
    left. exists (name e). rewrite <- Hp. now apply child_of_parent.
  - destruct (iterdir_In _ _ _ _ I Hin) as (Hne' & Hp & _).
    right. exists (name (parent e)), (name e).
    rewrite <- Hp, <- (child_of_parent (parent e) Hne').
    now apply child_of_parent.
Qed.

Lemma find_events_loop_read_only (pat : string) :
  forall (items acc evs : list path) (st st' : Localizer.localizer),
  Localizer.find_events_loop pat false items acc st = Ok (evs, st') ->
  Localizer.fs st' = Localizer.fs st /\
  forall e, In e evs ->
    In e acc \/
    exists item, In item items /\ is_dir (Localizer.fs st) item = true /\
                 event_under (Localizer.fs st) pat item e.
Proof.
  induction items as [|item rest IH]; intros acc evs st st' H;
    cbn [Localizer.find_events_loop] in H.
  - inversion H; subst. auto.
  - assert (Rest : forall acc' s,
              Localizer.find_events_loop pat false rest acc' s = Ok (evs, st') ->
              Localizer.fs s = Localizer.fs st ->
              (forall e, In e acc' -> In e acc \/
                 (is_dir (Localizer.fs st) item = true /\
                  event_under (Localizer.fs st) pat item e)) ->
              Localizer.fs st' = Localizer.fs st /\
              forall e, In e evs ->
                In e acc \/
                exists it, In it (item :: rest) /\
                           is_dir (Localizer.fs st) it = true /\
                           event_under (Localizer.fs st) pat it e).
    { intros acc' s Hs F Hacc. destruct (IH _ _ _ _ Hs) as [F' Hev].
      split; [congruence|]. intros e He.
      destruct (Hev e He) as [Ha|(it & Hit & Hd & Hu)].
      - destruct (Hacc e Ha) as [?|[? ?]]; [auto|]. right. exists item.
        simpl. auto.
      - right. exists it. rewrite <- F. simpl. auto. }
    destruct (is_dir (Localizer.fs st) item) eqn:D; cbn [negb] in H;
      [|apply (Rest acc st H eq_refl); auto].
    destruct (Localizer.is_event pat (path_str item)) as [[|]|] eqn:E;
      try discriminate.
    + unfold Localizer.mbind, Localizer.ret in H.
      apply (Rest _ _ H eq_refl). intros e He. apply in_app_or in He.
      destruct He as [He|[<-|[]]]; [auto|].
      right. split; [reflexivity|]. left. auto.
    + unfold Localizer.mbind in H.
      destruct (Localizer.traverse_sport_type item pat false _)
        as [[r s1]|] eqn:T; [|discriminate].
      pose proof (traverse_sport_type_read_only _ _ _ _ _ T) as ->.
      destruct r as [ep|].
      * apply (Rest _ _ H eq_refl). intros e He. apply in_app_or in He.
        destruct He as [He|[<-|[]]]; [auto|].
        right. split; [reflexivity|]. right. split; [exact E|].
        eexists. eexists. split; [|exact T]. reflexivity.
      * apply (Rest _ _ H eq_refl). auto.
Qed.

Lemma frames_of_set_In (fs0 : filesystem) (ev set_item : path)
    (frame_items : list path) (u : Localizer.frame_unit) :
  In u (Localizer.frames_of_set fs0 ev set_item frame_items) ->
  exists frame_item,
    In frame_item frame_items /\
    Localizer.frame_qualifies fs0 frame_item = true /\
    u = Localizer.mk_frame_unit set_item frame_item (name frame_item)
          (frame_item // "Render" // "Json")
          (replace_backslash
             (path_str (frame_item // "Render" // "Json"
                        // "standAloneRender.json"))) ev.
Proof.
  unfold Localizer.frames_of_set. intros H. apply in_map_iff in H.
  destruct H as (fi & <- & Hf). apply filter_In in Hf. destruct Hf.
  exists fi. auto.
Qed.

Lemma sets_loop_In (fs0 : filesystem) (ev : path) :
  forall (set_items : list path) (units : list Localizer.frame_unit)
         (u : Localizer.frame_unit),
  Localizer.sets_loop fs0 ev set_items = Ok units -> In u units ->
  exists set_item frame_items,
    In set_item set_items /\ is_dir fs0 set_item = true /\
    iterdir fs0 set_item = Ok frame_items /\
    In u (Localizer.frames_of_set fs0 ev set_item frame_items).
Proof.
  induction set_items as [|si rest IH]; intros units u H Hin; simpl in H.
  - inversion H; subst. contradiction.
  - destruct (is_dir fs0 si) eqn:D; cbn [negb] in H.
    + destruct (iterdir fs0 si) as [fis|] eqn:I; cbn [bind] in H; [|discriminate].
      destruct (Localizer.sets_loop fs0 ev rest) as [more|] eqn:S;
        cbn [bind] in H; [|discriminate].
      inversion H; subst. apply in_app_or in Hin. destruct Hin as [Hin|Hin].
      * exists si, fis. simpl. auto.
      * destruct (IH _ _ eq_refl Hin) as (s & f & ? & ? & ? & ?).
        exists s, f. simpl. auto.
    + destruct (IH _ _ H Hin) as (s & f & ? & ? & ? & ?).
      exists s, f. simpl. auto.
Qed.

Lemma events_loop_In (fs0 : filesystem) :
  forall (evs : list path) (units : list Localizer.frame_unit)
         (u : Localizer.frame_unit),
  Localizer.events_loop fs0 evs = Ok units -> In u units ->
  exists ev set_items,
    In ev evs /\ iterdir fs0 ev = Ok set_items /\
    exists units', Localizer.sets_loop fs0 ev set_items = Ok units' /\
                   In u units'.
Proof.
  induction evs as [|ev rest IH]; intros units u H Hin; simpl in H.
  - inversion H; subst. contradiction.
  - destruct (path_exists fs0 ev); cbn [negb] in H.
    + destruct (iterdir fs0 ev) as [sis|] eqn:I; cbn [bind] in H; [|discriminate].
      destruct (Localizer.sets_loop fs0 ev sis) as [here|] eqn:S;
        cbn [bind] in H; [|discriminate].
      destruct (Localizer.events_loop fs0 rest) as [more|] eqn:R;
        cbn [bind] in H; [|discriminate].
      inversion H; subst. apply in_app_or in Hin. destruct Hin as [Hin|Hin].
      * exists ev, sis. split; [simpl; auto|]. split; [exact I|].
        exists here. auto.
      * destruct (IH _ _ eq_refl Hin) as (e & s & ? & ? & ?).
        exists e, s. simpl. auto.
    + destruct (IH _ _ H Hin) as (e & s & ? & ? & ?).
      exists e, s. simpl. auto.
Qed.

(** What [get_json_files] is made of: the events of the first loop, the
    catalogue of the second. *)
Lemma get_json_files_inv (base : path) (pat sp : string) (cf : bool)
    (st st' : Localizer.localizer) (units : list Localizer.frame_unit) :
  Localizer.get_json_files base pat sp cf st = Ok (units, st') ->
  (units = [] /\ st' = Localizer.set_sport_folder_index st 1 /\
   path_exists (Localizer.fs st) base = false) \/
  exists items evs,
    iterdir (Localizer.fs st) base = Ok items /\
    Localizer.find_events_loop pat cf items []
      (Localizer.set_sport_folder_index st 1) = Ok (evs, st') /\
    Localizer.events_loop (Localizer.fs st') evs = Ok units.
Proof.
  unfold Localizer.get_json_files. cbn [Localizer.fs Localizer.set_sport_folder_index].
  destruct (path_exists (Localizer.fs st) base) eqn:P; cbn [negb].
  - destruct (iterdir (Localizer.fs st) base) as [items|] eqn:I; [|discriminate].
    unfold Localizer.mbind.
    destruct (Localizer.find_events_loop pat cf items [] _) as [[evs s1]|] eqn:F;
      [|discriminate].
    destruct (Localizer.events_loop (Localizer.fs s1) evs) as [us|] eqn:E;
      cbn [bind]; [|discriminate].
    intros H. inversion H; subst. right. exists items, evs. auto.
  - intros H. inversion H; subst. left. auto.
Qed.

(** Discovery without folder creation only reads: the tree is the same
    after the call. *)
Theorem get_json_files_read_only (base : path) (pat sp : string)
    (st st' : Localizer.localizer) (units : list Localizer.frame_unit) :
  Localizer.get_json_files base pat sp false st = Ok (units, st') ->
  Localizer.fs st' = Localizer.fs st.
Proof.
  intros H. apply get_json_files_inv in H.
  destruct H as [(_ & -> & _)|(items & evs & _ & F & _)]; [reflexivity|].
  apply find_events_loop_read_only in F. apply F.
Qed.

Lemma get_json_files_read_only_witness :
  exists units st',
    Localizer.get_json_files ["testSets"] Localizer.event_pattern "Set" false
      (Localizer.fresh_localizer Localizer.shallow_tree) = Ok (units, st') /\
    Localizer.fs st' = Localizer.shallow_tree.
Proof.
  let r := eval vm_compute in
      (Localizer.get_json_files ["testSets"] Localizer.event_pattern "Set" false
         (Localizer.fresh_localizer Localizer.shallow_tree)) in
  match r with
  | Ok (?u, ?s) =>
      exists u, s; split; [vm_compute; reflexivity|];
      apply (get_json_files_read_only ["testSets"] Localizer.event_pattern "Set"
               (Localizer.fresh_localizer Localizer.shallow_tree) s u);
      vm_compute; reflexivity
  end.
Defined.

Lemma catalogue_unit_inv (fs0 : filesystem) (evs : list path)
    (units : list Localizer.frame_unit) (u : Localizer.frame_unit) :
  Localizer.events_loop fs0 evs = Ok units -> In u units ->
  exists ev set_item frame_item,
    In ev evs /\ is_dir fs0 ev = true /\
    parent set_item = ev /\ is_dir fs0 set_item = true /\
    parent frame_item = set_item /\
    Localizer.frame_qualifies fs0 frame_item = true /\
    u = Localizer.mk_frame_unit set_item frame_item (name frame_item)
          (frame_item // "Render" // "Json")
          (replace_backslash
             (path_str (frame_item // "Render" // "Json"
                        // "standAloneRender.json"))) ev.
Proof.
  intros H Hin.
  destruct (events_loop_In _ _ _ _ H Hin) as (ev & sis & Hev & I & us & S & Hu).
  destruct (sets_loop_In _ _ _ _ _ S Hu) as (si & fis & Hsi & Dsi & I' & Hf).
  destruct (frames_of_set_In _ _ _ _ _ Hf) as (fi & Hfi & Q & ->).
  destruct (iterdir_In _ _ _ _ I Hsi) as (_ & Ps & _ & Dev).
  destruct (iterdir_In _ _ _ _ I' Hfi) as (_ & Pf & _ & _).
  exists ev, si, fi. repeat split; assumption.
Qed.

Lemma replace_backslash_id (s : string) :
  contains backslash s = false -> replace_backslash s = s.
Proof.
  induction s as [|c s IH]; [reflexivity|].
  cbn [contains replace_backslash]. intros H.
  apply orb_false_iff in H. destruct H as [Hc Hs].
  now rewrite Hc, (IH Hs).
Qed.

Lemma contains_path_str_child (c : ascii) (p : path) (n : string) :
  contains c (path_str p) = false -> contains c "/" = false ->
  contains c n = false -> contains c (path_str (p // n)) = false.
Proof.
  intros Hp Hs Hn. unfold path_str, child in *.
  induction p as [|x p IH]; [exact Hn|].
  destruct p as [|y p].
  - change (String.concat "/" ([x] ++ [n])) with (x ++ "/" ++ n)%string.
    change (String.concat "/" [x]) with x in Hp.
    now rewrite !contains_app, Hp, Hs, Hn.
  - change (String.concat "/" ((x :: y :: p) ++ [n]))
      with (x ++ "/" ++ String.concat "/" ((y :: p) ++ [n]))%string.
    change (String.concat "/" (x :: y :: p))
      with (x ++ "/" ++ String.concat "/" (y :: p))%string in Hp.
    rewrite !contains_app in Hp.
    apply orb_false_iff in Hp. destruct Hp as [Hx Hp].
    apply orb_false_iff in Hp. destruct Hp as [_ Hp].
    now rewrite !contains_app, Hx, Hs, (IH Hp).
Qed.

(** Every row of the catalogue describes a frame directory of the tree
    as it is when [get_json_files] returns: the directory passes the
    frame test, the file [standAloneRender.json] exists in its JSON
    folder, and the set and event columns are its parent and
    grandparent.  The [json_file] column is the text of that file's
    path with every backslash turned into a slash; it names the file
    itself when no backslash occurs in the frame folder's path. *)
Theorem catalogue_rows_describe_frames (base : path) (pat sp : string)
    (cf : bool) (st st' : Localizer.localizer)
    (units : list Localizer.frame_unit) (u : Localizer.frame_unit) :
  Localizer.get_json_files base pat sp cf st = Ok (units, st') ->
  In u units ->
  Localizer.frame_qualifies (Localizer.fs st') (Localizer.folder_frame u) = true /\
  path_exists (Localizer.fs st')
    (Localizer.json_folder u // "standAloneRender.json") = true /\
  Localizer.frame_name_ok (Localizer.frame_name u) = true /\
  Localizer.frame_name u = name (Localizer.folder_frame u) /\
  Localizer.json_folder u = Localizer.folder_frame u // "Render" // "Json" /\
  Localizer.json_file u =
    replace_backslash
      (path_str (Localizer.json_folder u // "standAloneRender.json")) /\
  (contains backslash (path_str (Localizer.folder_frame u)) = false ->
   Localizer.json_file u =
     path_str (Localizer.json_folder u // "standAloneRender.json")) /\
  parent (Localizer.folder_frame u) = Localizer.folder_set u /\
  parent (Localizer.folder_set u) = Localizer.event_with_set_path u /\
  is_dir (Localizer.fs st') (Localizer.folder_set u) = true /\
  is_dir (Localizer.fs st') (Localizer.event_with_set_path u) = true.
Proof.
  intros H Hin. apply get_json_files_inv in H.
  destruct H as [(-> & _)|(items & evs & _ & _ & E)]; [contradiction|].
  destruct (catalogue_unit_inv _ _ _ _ E Hin)
    as (ev & si & fi & _ & Dev & Ps & Dsi & Pf & Q & ->).
  cbn [Localizer.folder_frame Localizer.json_folder Localizer.json_file
       Localizer.frame_name Localizer.folder_set Localizer.event_with_set_path].
  pose proof Q as Q'. unfold Localizer.frame_qualifies in Q'.
  apply andb_true_iff in Q'. destruct Q' as [Q1 Q3].
  apply andb_true_iff in Q1. destruct Q1 as [_ Q2].
  split; [exact Q|]. split; [exact Q3|]. split; [exact Q2|].
  split; [reflexivity|]. split; [reflexivity|]. split; [reflexivity|].
  split; [|repeat split; assumption].
  intros NB. apply replace_backslash_id.
  repeat (apply contains_path_str_child; [|reflexivity|reflexivity]).
  exact NB.
Qed.

Lemma catalogue_rows_describe_frames_witness :
  exists units st' u,
    Localizer.get_json_files ["testSets"] Localizer.event_pattern "Set" false
      (Localizer.fresh_localizer Localizer.shallow_tree) = Ok (units, st') /\
    In u units /\
    Localizer.frame_name u = "F42" /\
    path_exists (Localizer.fs st')
      (Localizer.json_folder u // "standAloneRender.json") = true /\
    Localizer.json_file u =
      path_str (Localizer.json_folder u // "standAloneRender.json") /\
    parent (Localizer.folder_set u) = Localizer.event_with_set_path u.
Proof.
  let r := eval vm_compute in
      (Localizer.get_json_files ["testSets"] Localizer.event_pattern "Set" false
         (Localizer.fresh_localizer Localizer.shallow_tree)) in
  match r with
  | Ok (?us, ?s) =>
      match us with
      | ?u :: _ =>
          exists us, s, u; split; [vm_compute; reflexivity|];
          split; [left; reflexivity|]; split; [reflexivity|];
          destruct (catalogue_rows_describe_frames ["testSets"]
                      Localizer.event_pattern "Set" false
                      (Localizer.fresh_localizer Localizer.shallow_tree) s us u
                      ltac:(vm_compute; reflexivity) ltac:(left; reflexivity))
            as (_ & J & _ & _ & _ & _ & B & _ & P & _);
          split; [exact J|]; split; [apply B; vm_compute; reflexivity|exact P]
      end
  end.
Defined.

Lemma firstn_length_app {A : Type} (a b : list A) :
  firstn (List.length a) (a ++ b) = a.
Proof.
  rewrite firstn_app, Nat.sub_diag, firstn_all. simpl. apply app_nil_r.
Qed.

Lemma firstn_child (base : path) (x : string) (rest : path) :
  firstn (S (List.length base)) (base // x ++ rest) = base // x.
Proof.
  replace (S (List.length base)) with (List.length (base // x))
    by (unfold child; rewrite length_app; simpl; lia).
  apply firstn_length_app.
Qed.

(** Without folder creation every event of the catalogue is a directory
    whose name passes [is_event], one to three levels below the base
    path; and a top-level directory contributes one event at most: the
    search below it stops at the first event it meets. *)
Theorem one_event_per_top_level_directory (base : path) (pat sp : string)
    (st st' : Localizer.localizer) (units : list Localizer.frame_unit)
    (u : Localizer.frame_unit) :
  Localizer.get_json_files base pat sp false st = Ok (units, st') ->
  In u units ->
  Localizer.is_event pat (path_str (Localizer.event_with_set_path u)) = Ok true /\
  is_dir (Localizer.fs st) (Localizer.event_with_set_path u) = true /\
  (exists rel, Localizer.event_with_set_path u = base ++ rel /\
               (1 <= List.length rel <= 3)%nat) /\
  (forall u', In u' units ->
     firstn (S (List.length base)) (Localizer.event_with_set_path u') =
     firstn (S (List.length base)) (Localizer.event_with_set_path u) ->
     Localizer.event_with_set_path u' = Localizer.event_with_set_path u).
Proof.
  intros H Hin. apply get_json_files_inv in H.
  destruct H as [(-> & _)|(items & evs & I & F & E)]; [contradiction|].
  apply find_events_loop_read_only in F.
  cbn [Localizer.fs Localizer.set_sport_folder_index] in F.
  destruct F as [Ffs Fev].
  assert (Ev : forall v, In v units ->
            exists x tail,
              Localizer.event_with_set_path v = base // x ++ tail /\
              (List.length tail <= 2)%nat /\
              event_under (Localizer.fs st) pat (base // x)
                (Localizer.event_with_set_path v) /\
              Localizer.is_event pat
                (path_str (Localizer.event_with_set_path v)) = Ok true /\
              is_dir (Localizer.fs st) (Localizer.event_with_set_path v) = true).
  { intros v Hv.
    destruct (catalogue_unit_inv _ _ _ _ E Hv)
      as (ev & si & fi & Hev & _ & _ & _ & _ & _ & ->). cbn.
    destruct (Fev ev Hev) as [[]|(item & Hit & Dit & Hu)].
    destruct (iterdir_In _ _ _ _ I Hit) as (Hne & Hp & _).
    destruct (event_under_facts _ _ _ _ Hu Dit) as (He & Hd & Hshape).
    exists (name item). rewrite <- Hp, <- (child_of_parent item Hne).
    destruct Hshape as [->|[[y ->]|(y & z & ->)]].
    - exists []. rewrite app_nil_r.
      repeat split; try assumption; simpl; lia.
    - exists [y]. repeat split; try assumption; simpl; lia.
    - exists [y; z].
      replace (item ++ [y; z]) with (item // y // z)
        by (unfold child; now rewrite <- app_assoc).
      repeat split; try assumption; simpl; lia. }
  destruct (Ev u Hin) as (x & tail & Eu & Lt & Uu & He & Hd).
  split; [exact He|]. split; [exact Hd|]. split.
  - exists (x :: tail). rewrite Eu. unfold child. rewrite <- app_assoc.
    simpl. split; [reflexivity|lia].
  - intros u' Hin' Hf.
    destruct (Ev u' Hin') as (x' & tail' & Eu' & _ & Uu' & _ & _).
    rewrite Eu, Eu', !firstn_child in Hf. rewrite <- Hf in Uu.
    exact (event_under_functional _ _ _ _ _ Uu' Uu).
Qed.

Lemma one_event_per_top_level_directory_witness :
  exists units st' u,
    Localizer.get_json_files ["testSets"] Localizer.event_pattern "Set" false
      (Localizer.fresh_localizer Localizer.shallow_tree) = Ok (units, st') /\
    In u units /\
    Localizer.is_event Localizer.event_pattern
      (path_str (Localizer.event_with_set_path u)) = Ok true /\
    exists rel, Localizer.event_with_set_path u = ["testSets"] ++ rel /\
                (1 <= List.length rel <= 3)%nat.
Proof.
  let r := eval vm_compute in
      (Localizer.get_json_files ["testSets"] Localizer.event_pattern "Set" false
         (Localizer.fresh_localizer Localizer.shallow_tree)) in
  match r with
  | Ok (?us, ?s) =>
      match us with
      | ?u :: _ =>
          exists us, s, u; split; [vm_compute; reflexivity|];
          split; [left; reflexivity|];
          destruct (one_event_per_top_level_directory ["testSets"]
                      Localizer.event_pattern "Set"
                      (Localizer.fresh_localizer Localizer.shallow_tree) s us u
                      ltac:(vm_compute; reflexivity) ltac:(left; reflexivity))
            as (A & _ & B & _);
          split; [exact A|exact B]
      end
  end.
Defined.

(** ** Folder creation: the path it reports *)

Lemma mkdir_from_new_entries :
  forall (todo done : path) (fs0 fs' : filesystem) (p : path),
  mkdir_from fs0 done todo = Ok fs' ->
  In p (map fst fs') ->
  In p (map fst fs0) \/
  exists k, (k <= List.length todo)%nat /\ p = done ++ firstn k todo.
Proof.
  induction todo as [|c todo IH]; intros done fs0 fs' p H Hin; simpl in H.
  - inversion H; subst. auto.
  - assert (Step : forall fsx,
              mkdir_from fsx (done // c) todo = Ok fs' ->
              (forall q, In q (map fst fsx) ->
                 In q (map fst fs0) \/ q = done // c) ->
              In p (map fst fs0) \/
              exists k, (k <= List.length (c :: todo))%nat /\
                        p = done ++ firstn k (c :: todo)).
    { intros fsx Hx Hq. destruct (IH _ _ _ _ Hx Hin) as [Hp|(k & Hk & ->)].
      - destruct (Hq p Hp) as [?| ->]; [auto|]. right. exists 1%nat.
        simpl. split; [lia|reflexivity].
      - right. exists (S k). simpl. split; [lia|].
        unfold child. now rewrite <- app_assoc. }
    destruct (is_dir fs0 (done // c)); [apply (Step fs0 H); auto|].
    destruct (path_exists fs0 (done // c)); [discriminate|].
    apply (Step _ H). intros q Hq. rewrite map_app in Hq.
    apply in_app_or in Hq. destruct Hq as [?|[<-|[]]]; auto.
Qed.

Lemma parent_closed_In (fs0 : filesystem) (p : path) :
  parent_closed fs0 = true -> In p (map fst fs0) ->
  is_dir fs0 (parent p) = true.
Proof.
  unfold parent_closed. rewrite forallb_forall. intros H Hin.
  apply in_map_iff in Hin. destruct Hin as (e & <- & He). now apply H.
Qed.

Section ReportedPath.

Variable fs0 : filesystem.
Variable placeholder : path.
Hypothesis closed : parent_closed fs0 = true.
Hypothesis unused : path_exists fs0 placeholder = false.

(** Below a placeholder that did not exist nothing exists once it is
    created. *)
Lemma nothing_below_new_placeholder (fs' : filesystem) (n : string) :
  mkdir_parents fs0 placeholder = Ok fs' ->
  path_exists fs' (placeholder // n) = false.
Proof.
  intros M. destruct (path_exists fs' (placeholder // n)) eqn:P; [|reflexivity].
  exfalso. apply path_exists_In in P; [|apply child_nonempty].
  destruct (mkdir_from_new_entries _ _ _ _ _ M P) as [Hin|(k & Hk & E)].
  - apply (parent_closed_In _ _ closed) in Hin.
    rewrite parent_child in Hin. apply is_dir_path_exists in Hin. congruence.
  - simpl in E. apply (f_equal (@List.length _)) in E.
    unfold child in E. rewrite length_app, length_firstn in E. simpl in E. lia.
Qed.

End ReportedPath.

(** On a tree in which every entry lies in a directory of the tree, the
    path [create_extra_folder] reports for depth 2 or 3 does not exist
    when it returns: the placeholder directories are created, the event
    directory is not moved below them. *)
Theorem create_extra_folder_reports_missing_path (parent_path : path)
    (depth : nat) (st st' : Localizer.localizer) (new_event_path : path) :
  parent_closed (Localizer.fs st) = true ->
  depth = 2%nat \/ depth = 3%nat ->
  Localizer.create_extra_folder parent_path depth st = Ok (new_event_path, st') ->
  path_exists (Localizer.fs st') new_event_path = false.
Proof.
  intros C [->| ->]; unfold Localizer.create_extra_folder.
  - destruct (Localizer.skip_existing _ _ _ _) as [i|] eqn:S; [|discriminate].
    destruct (skip_existing_some _ _ _ _ _ S) as (_ & U & _).
    destruct (mkdir_parents _ _) as [fs'|] eqn:M; cbn [bind]; [|discriminate].
    intros H. inversion H; subst. cbn.
    exact (nothing_below_new_placeholder _ _ C U _ _ M).
  - destruct (Localizer.skip_existing _ _ _ _) as [i|] eqn:S; [|discriminate].
    destruct (skip_existing_some _ _ _ _ _ S) as (_ & U & _).
    destruct (mkdir_parents _ _) as [fs'|] eqn:M; cbn [bind]; [|discriminate].
    intros H. inversion H; subst. cbn.
    exact (nothing_below_new_placeholder _ _ C U _ _ M).
Qed.

Lemma create_extra_folder_reports_missing_path_witness :
  exists new_event_path st',
    parent_closed Localizer.shallow_tree = true /\
    Localizer.create_extra_folder ["testSets"; Localizer.event_dir] 3
      (Localizer.fresh_localizer Localizer.shallow_tree)
    = Ok (new_event_path, st') /\
    path_exists (Localizer.fs st') new_event_path = false.
Proof.
  let r := eval vm_compute in
      (Localizer.create_extra_folder ["testSets"; Localizer.event_dir] 3
         (Localizer.fresh_localizer Localizer.shallow_tree)) in
  match r with
  | Ok (?p, ?s) =>
      exists p, s; split; [vm_compute; reflexivity|];
      split; [vm_compute; reflexivity|];
      apply (create_extra_folder_reports_missing_path
               ["testSets"; Localizer.event_dir] 3
               (Localizer.fresh_localizer Localizer.shallow_tree) s p);
      [vm_compute; reflexivity|right; reflexivity|vm_compute; reflexivity]
  end.
Defined.
(** ** Report metadata *)

Lemma nonempty_pieces_nth (pieces : list string) (i : nat) :
  let kept := filter (fun piece => negb (String.eqb piece "")) pieces in
  (i < List.length kept)%nat -> nth i kept "" <> "".
Proof.
  intros kept L E.
  pose proof (nth_In kept "" L) as Hin. rewrite E in Hin.
  apply filter_In in Hin. destruct Hin as [_ Hin]. discriminate.
Qed.

(** The four names [_extract_metadata_from_path] returns fill up in the
    order event, sport type, stadium, category: a category name comes
    with a stadium name, a stadium name with a sport type, a sport type
    with an event name.  Without an event name all four are empty. *)
Theorem extract_metadata_levels (result_folder : string) :
  let '(event_name, sport_type, stadium_name, category_name) :=
    Compare.extract_metadata_from_path result_folder in
  (category_name <> "" -> stadium_name <> "") /\
  (stadium_name <> "" -> sport_type <> "") /\
  (sport_type <> "" -> event_name <> "") /\
  (event_name = "" ->
   sport_type = "" /\ stadium_name = "" /\ category_name = "").
Proof.
  unfold Compare.extract_metadata_from_path.
  destruct (_ <? 2)%nat; [repeat split; congruence|].
  set (kept := filter _ _).
  pose proof (fun i => nonempty_pieces_nth
                (split_on slash (nth 1 (split_str "testSets_results" result_folder) ""))
                i) as NE.
  cbv zeta in NE. fold kept in NE.
  assert (T : forall i, (i < List.length kept)%nat -> nth i kept "" = "" -> False)
    by (intros i Hi C; exact (NE i Hi C)).
  destruct (Nat.eqb_spec (List.length kept) 5) as [E5|N5];
    [repeat split; try congruence; try (intros _; apply NE; lia);
     try (exfalso; eapply T; [|eassumption]; lia)|].
  destruct (Nat.eqb_spec (List.length kept) 6) as [E6|N6];
    [repeat split; try congruence; try (intros _; apply NE; lia);
     try (exfalso; eapply T; [|eassumption]; lia)|].
  destruct (Nat.eqb_spec (List.length kept) 7) as [E7|N7];
    [repeat split; try congruence; try (intros _; apply NE; lia);
     try (exfalso; eapply T; [|eassumption]; lia)|].
  destruct (Nat.leb_spec 8 (List.length kept)) as [G8|L8];
    [repeat split; try congruence; try (intros _; apply NE; lia);
     try (exfalso; eapply T; [|eassumption]; lia)|].
  repeat split; try congruence; intros; repeat split; reflexivity.
Qed.

Lemma extract_metadata_levels_witness :
  Compare.extract_metadata_from_path
    "/d/testSets_results/Soccer/Wembley/E12_34_56_78_90_12__/Set1/F42/v1_VS_v2/results"
  = ("E12_34_56_78_90_12__", "Soccer", "Wembley", "") /\
  (("" : string) <> "" -> "Wembley" <> "") /\
  ("Wembley" <> "" -> "Soccer" <> "") /\
  ("Soccer" <> "" -> "E12_34_56_78_90_12__" <> "") /\
  ("E12_34_56_78_90_12__" = "" ->
   "Soccer" = "" /\ "Wembley" = "" /\ ("" : string) = "").
Proof.
  split; [vm_compute; reflexivity|].
  exact (extract_metadata_levels
           "/d/testSets_results/Soccer/Wembley/E12_34_56_78_90_12__/Set1/F42/v1_VS_v2/results").
Defined.

(** ** When a report is written *)

Lemma list_index_ok {A : Type} (l : list A) (i : nat) :
  (exists a, Compare.list_index l i = Ok a) <-> (i < List.length l)%nat.
Proof.
  unfold Compare.list_index. rewrite <- nth_error_Some.
  destruct (nth_error l i); split; intros H; eauto; try congruence.
  destruct H; discriminate.
Qed.

Lemma list_index_raise {A : Type} (l : list A) (i : nat) (e : exn) :
  Compare.list_index l i = Raise e -> (List.length l <= i)%nat.
Proof.
  unfold Compare.list_index. destruct (nth_error l i) eqn:E; [discriminate|].
  intros _. now apply nth_error_None.
Qed.

(** [write_to_xml_file] writes the document exactly when it is given two
    metric lists of which the second is not empty, five paths, a start
    frame [int] can read and a writable file.  Bad metric lists raise
    [ValueError]; every other failure leaves as [IOError]. *)
Theorem write_to_xml_file_outcome (w : Compare.world) (rf : string)
    (ctl : list (list Compare.fval)) (sf ef : string) (pl : list string)
    (ev no nt : string) (sp st ca : option string) :
  let xml := replace_backslash (path_join rf "compareResult.xml") in
  match Compare.write_to_xml_file w rf ctl sf ef pl ev no nt sp st ca with
  | Ok r =>
      (2 <= List.length ctl)%nat /\ nth 1 ctl [] <> [] /\
      (5 <= List.length pl)%nat /\ (exists z, py_int sf = Ok z) /\
      Compare.can_write w xml = true
  | Raise e =>
      (e = ValueError /\ ((List.length ctl < 2)%nat \/ nth 1 ctl [] = [])) \/
      (e = IOError /\ (2 <= List.length ctl)%nat /\ nth 1 ctl [] <> [] /\
       ((List.length pl < 5)%nat \/ (exists e', py_int sf = Raise e') \/
        Compare.can_write w xml = false))
  end.
Proof.
  cbv zeta. unfold Compare.write_to_xml_file.
  destruct (Nat.ltb_spec (List.length ctl) 2) as [L|L]; [left; auto|].
  destruct (nth 1 ctl []) as [|v vs] eqn:N; [left; auto|].
  assert (NE : v :: vs <> []) by discriminate.
  unfold Compare.build_document, Compare.py_min, Compare.py_max.
  destruct (Compare.list_index pl 0) as [p0|e0] eqn:I0; cbn [bind];
    [|apply list_index_raise in I0; right; repeat split; auto; left; lia].
  destruct (Compare.list_index pl 1) as [p1|e1] eqn:I1; cbn [bind];
    [|apply list_index_raise in I1; right; repeat split; auto; left; lia].
  destruct (Compare.list_index pl 3) as [p3|e3] eqn:I3; cbn [bind];
    [|apply list_index_raise in I3; right; repeat split; auto; left; lia].
  destruct (Compare.list_index pl 4) as [p4|e4] eqn:I4; cbn [bind];
    [|apply list_index_raise in I4; right; repeat split; auto; left; lia].
  assert (L5 : (5 <= List.length pl)%nat).
  { assert (H : (4 < List.length pl)%nat) by (apply list_index_ok; eauto). lia. }
  destruct (py_int sf) as [z|e'] eqn:Z; cbn [bind];
    [|right; repeat split; auto; right; left; eauto].
  destruct (Compare.can_write w _) eqn:C.
  - repeat split; eauto.
  - right. repeat split; auto.
Qed.

Lemma write_to_xml_file_outcome_witness :
  Compare.write_to_xml_file Compare.sample_world "/r/results"
    [[Compare.Finite 4]; [Compare.Finite (9 # 10)]] "0005" "0005"
    ["/r/v1"; "/r/v2"; "/r/results"] "E" "v1" "v2" None None None
  = Raise IOError /\
  ((IOError = ValueError /\
    ((2 < 2)%nat \/ [Compare.Finite (9 # 10)] = [])) \/
   (IOError = IOError /\ (2 <= 2)%nat /\ [Compare.Finite (9 # 10)] <> [] /\
    ((3 < 5)%nat \/ (exists e', py_int "0005" = Raise e') \/
     Compare.can_write Compare.sample_world
       (replace_backslash (path_join "/r/results" "compareResult.xml")) = false))).
Proof.
  split; [vm_compute; reflexivity|].
  exact (write_to_xml_file_outcome Compare.sample_world "/r/results"
           [[Compare.Finite 4]; [Compare.Finite (9 # 10)]] "0005" "0005"
           ["/r/v1"; "/r/v2"; "/r/results"] "E" "v1" "v2" None None None).
Defined.
(** ** Summary statistics of a report *)

Lemma fold_pick_In {A : Type} (pick : A -> A -> bool) :
  forall (l : list A) (x : A),
  In (fold_left (fun m y => if pick y m then y else m) l x) (x :: l).
Proof.
  induction l as [|a l IH]; intros x; simpl; [auto|].
  destruct (pick a x).
  - destruct (IH a) as [<-|H]; auto.
  - destruct (IH x) as [<-|H]; auto.
Qed.

Lemma py_min_In (l : list Compare.fval) (v : Compare.fval) :
  Compare.py_min l = Ok v -> In v l.
Proof.
  destruct l as [|x l]; [discriminate|]. simpl. intros H. inversion H; subst.
  apply fold_pick_In.
Qed.

Lemma py_max_In (l : list Compare.fval) (v : Compare.fval) :
  Compare.py_max l = Ok v -> In v l.
Proof.
  destruct l as [|x l]; [discriminate|]. simpl. intros H. inversion H; subst.
  apply (fold_pick_In (fun y m => Compare.flt m y)).
Qed.

(** [max] of finite values is finite and above each of them. *)
Lemma fold_max_finite : forall (l : list Compare.fval) (q0 : Q),
  Forall Compare.is_finite l ->
  exists m,
    fold_left (fun m y => if Compare.flt m y then y else m) l (Compare.Finite q0)
      = Compare.Finite m /\
    q0 <= m /\
    forall x, In (Compare.Finite x) l -> x <= m.
Proof.
  induction l as [|v l IH]; intros q0 HF.
  - exists q0. split; [reflexivity|]. split; [apply Qle_refl|]. intros x [].
  - inversion HF as [|? ? Hv Hl]; subst. destruct v as [y| |]; try contradiction.
    simpl. destruct (Qle_bool y q0) eqn:E; simpl.
    + apply Qle_bool_iff in E.
      destruct (IH q0 Hl) as (m & Hm & Hq & Hall).
      exists m. split; [exact Hm|]. split; [exact Hq|].
      intros x [Hx|Hx]; [|now apply Hall].
      inversion Hx; subst. now apply Qle_trans with q0.
    + assert (Hlt : q0 < y).
      { apply Qnot_le_lt. intros C. apply Qle_bool_iff in C. congruence. }
      destruct (IH y Hl) as (m & Hm & Hq & Hall).
      exists m. split; [exact Hm|].
      split; [apply Qle_trans with y; [now apply Qlt_le_weak|exact Hq]|].
      intros x [Hx|Hx]; [|now apply Hall].
      inversion Hx; subst. exact Hq.
Qed.

Lemma py_max_finite (l : list Compare.fval) (v : Compare.fval) (x : Q) :
  Forall Compare.is_finite l -> Compare.py_max l = Ok v ->
  In (Compare.Finite x) l ->
  exists m, v = Compare.Finite m /\ x <= m.
Proof.
  intros HF Hmax Hin. destruct l as [|a l]; [contradiction|].
  inversion HF as [|? ? Ha Hl]; subst. destruct a as [q0| |]; try contradiction.
  simpl in Hmax. destruct (fold_max_finite l q0 Hl) as (m & Hm & Hq & Hall).
  rewrite Hm in Hmax. inversion Hmax; subst. exists m. split; [reflexivity|].
  destruct Hin as [Hx|Hx]; [inversion Hx; subst; exact Hq|now apply Hall].
Qed.

Lemma map_nth_seq {A : Type} (d : A) : forall l : list A,
  map (fun x => nth x l d) (seq 0 (List.length l)) = l.
Proof.
  induction l as [|a l IH]; [reflexivity|].
  cbn [List.length seq map nth]. f_equal.
  rewrite <- seq_shift, map_map. exact IH.
Qed.

Lemma frames_values (start : Z) (entries : list Compare.fval) :
  map snd (map (fun x => (Z.of_nat x + start, nth x entries Compare.NaN)%Z)
               (seq 0 (List.length entries))) = entries.
Proof. rewrite map_map. cbn [snd]. apply map_nth_seq. Qed.

(** In a written report minVal and maxVal are values of frame entries,
    every frame value is finite, and each lies between the two. *)
Theorem report_min_max_bound_frames (w : Compare.world) (folder : string)
    (origs tests : list string) (po pt no nt : string)
    (run : Compare.run) (r : Compare.report) :
  Compare.render_compare_do_it w folder origs tests po pt no nt = Ok run ->
  Compare.xml_report run = Some r ->
  exists lo hi,
    Compare.minVal r = Compare.Finite lo /\
    Compare.maxVal r = Compare.Finite hi /\
    In (Compare.Finite lo) (map snd (Compare.frames r)) /\
    In (Compare.Finite hi) (map snd (Compare.frames r)) /\
    forall v, In v (map snd (Compare.frames r)) ->
      exists q, v = Compare.Finite q /\ lo <= q /\ q <= hi.
Proof.
  intros H X.
  destruct (render_compare_do_it_report _ _ _ _ _ _ _ _ _ _ H X)
    as (start & _ & _ & _ & _ & _ & Mn & Mx & F).
  rewrite F, frames_values.
  pose proof (entries_finite w (combine origs tests)) as FIN.
  set (entries := map (Compare.ssim_entry w) _) in *.
  pose proof (py_min_In _ _ Mn) as InMin. pose proof (py_max_In _ _ Mx) as InMax.
  pose proof (proj1 (Forall_forall _ _) FIN) as Fin.
  destruct (Compare.minVal r) as [lo| |] eqn:EL;
    try (exfalso; exact (Fin _ InMin)).
  destruct (Compare.maxVal r) as [hi| |] eqn:EH;
    try (exfalso; exact (Fin _ InMax)).
  exists lo, hi. repeat split; try assumption.
  intros v Hv. pose proof (Fin _ Hv) as Fv. destruct v as [q| |]; try contradiction.
  exists q. split; [reflexivity|]. split.
  - destruct (py_min_finite _ _ q FIN Mn Hv) as (m & Em & Le). now inversion Em.
  - destruct (py_max_finite _ _ q FIN Mx Hv) as (m & Em & Le). now inversion Em.
Qed.

Lemma report_min_max_bound_frames_witness :
  exists run r,
    Compare.render_compare_do_it Compare.sample_world Compare.sample_folder
      Compare.sample_orig Compare.sample_tester "/r/v1" "/r/v2" "v1" "v2"
    = Ok run /\
    Compare.xml_report run = Some r /\
    exists lo hi,
      Compare.minVal r = Compare.Finite lo /\
      Compare.maxVal r = Compare.Finite hi /\
      In (Compare.Finite lo) (map snd (Compare.frames r)) /\
      In (Compare.Finite hi) (map snd (Compare.frames r)) /\
      forall v, In v (map snd (Compare.frames r)) ->
        exists q, v = Compare.Finite q /\ lo <= q /\ q <= hi.
Proof.
  eexists. eexists.
  split; [vm_compute; reflexivity|]. split; [reflexivity|].
  apply (report_min_max_bound_frames Compare.sample_world
           Compare.sample_folder Compare.sample_orig Compare.sample_tester
           "/r/v1" "/r/v2" "v1" "v2" _ _ ltac:(vm_compute; reflexivity) eq_refl).
Defined.

(** ** Counters of the comparison loop *)

Lemma compare_pair_counts (w : Compare.world) (d a : string) (start : Z)
    (acc : Compare.loop_state) (i : nat) (o t : string) :
  let acc' := Compare.compare_pair w d a start acc i o t in
  let k := if Compare.valid_pair w (o, t) then 1%nat else 0%nat in
  List.length (Compare.result_mse_list acc') =
    (List.length (Compare.result_mse_list acc) + k)%nat /\
  (Compare.failed_comparisons acc + (1 - k) <=
   Compare.failed_comparisons acc')%nat /\
  (Compare.failed_comparisons acc' <= Compare.failed_comparisons acc + 1)%nat.
Proof.
  unfold Compare.compare_pair, Compare.valid_pair. simpl.
  destruct (Compare.imread w o) as [src|]; [|simpl; lia].
  destruct (Compare.imread w t) as [tst|]; [|simpl; lia].
  destruct (Compare.frame_shape_eqb src tst) eqn:E; simpl; [|lia].
  unfold Compare.after_mse.
  destruct (Compare.mean_squared_error _ _) as [m|e] eqn:M;
    [|rewrite (mean_squared_error_raises _ _ _ M)];
    unfold Compare.record_metrics;
    destruct (Compare.artifacts_outcome w d a start i _ _); simpl;
    rewrite length_app; simpl; lia.
Qed.

Lemma compare_loop_counts (w : Compare.world) (d a : string) (start : Z) :
  forall (pairs : list (string * string)) (i : nat) (acc : Compare.loop_state),
  let final := Compare.compare_loop w d a start pairs i acc in
  List.length (Compare.result_mse_list final) =
    (List.length (Compare.result_mse_list acc) + Compare.count_valid w pairs)%nat /\
  (Compare.failed_comparisons acc +
   (List.length pairs - Compare.count_valid w pairs) <=
   Compare.failed_comparisons final)%nat /\
  (Compare.failed_comparisons final <=
   Compare.failed_comparisons acc + List.length pairs)%nat.
Proof.
  unfold Compare.count_valid.
  induction pairs as [|[o t] pairs IH]; intros i acc;
    cbn [Compare.compare_loop filter List.length]; [lia|].
  specialize (IH (i + 1)%nat (Compare.compare_pair w d a start acc i o t)).
  pose proof (compare_pair_counts w d a start acc i o t) as P.
  pose proof (filter_length_le (Compare.valid_pair w) pairs) as LE.
  cbv zeta in IH, P.
  destruct (Compare.valid_pair w (o, t)); cbn [List.length]; lia.
Qed.

Lemma render_compare_do_it_locals (w : Compare.world) (folder : string)
    (origs tests : list string) (po pt no nt : string)
    (run : Compare.run) (r : Compare.report) :
  Compare.render_compare_do_it w folder origs tests po pt no nt = Ok run ->
  Compare.xml_report run = Some r ->
  exists start,
    Compare.locals run =
    Compare.compare_loop w (Compare.diff_images_folder folder)
      (Compare.alpha_images_folder folder) start (combine origs tests) 0
      Compare.loop_start.
Proof.
  unfold Compare.render_compare_do_it, Compare.stop_early.
  destruct origs as [|o origs]; [intros H; inversion H; subst; discriminate|].
  destruct tests as [|t tests]; [intros H; inversion H; subst; discriminate|].
  destruct (negb _); [intros H; inversion H; subst; discriminate|].
  destruct (Compare.first_frame_number o) as [st|];
    [|intros H; inversion H; subst; discriminate].
  destruct (Compare.mkdir w (Compare.results_folder folder));
    [|intros H; inversion H; subst; discriminate].
  destruct (Compare.extract_metadata_from_path _) as [[[ev sp] sd] ca].
  destruct (Compare.mkdir w (Compare.diff_images_folder folder));
    [|intros H; inversion H; subst; discriminate].
  destruct (Compare.mkdir w (Compare.alpha_images_folder folder));
    [|intros H; inversion H; subst; discriminate].
  destruct (Compare.result_ssim_list _);
    [intros H; inversion H; subst; discriminate|].
  destruct (Compare.write_to_xml_file _ _ _ _ _ _ _ _ _ _ _ _);
    [|intros H; inversion H; subst; discriminate].
  intros H X. inversion H; subst run. exists st. reflexivity.
Qed.

(** In a run that wrote a report the two metric lists have one value
    per frame entry, and the number the run logs as successful, the
    input length minus [failed_comparisons], never exceeds the number
    of frame entries, which never exceeds the input length. *)
Theorem metric_lists_aligned (w : Compare.world) (folder : string)
    (origs tests : list string) (po pt no nt : string)
    (run : Compare.run) (r : Compare.report) :
  Compare.render_compare_do_it w folder origs tests po pt no nt = Ok run ->
  Compare.xml_report run = Some r ->
  List.length (Compare.result_mse_list (Compare.locals run)) =
    List.length (Compare.frames r) /\
  List.length (Compare.result_ssim_list (Compare.locals run)) =
    List.length (Compare.frames r) /\
  (List.length origs - Compare.failed_comparisons (Compare.locals run) <=
   List.length (Compare.frames r))%nat /\
  (List.length (Compare.frames r) <= List.length origs)%nat.
Proof.
  intros H X.
  destruct (render_compare_do_it_report _ _ _ _ _ _ _ _ _ _ H X)
    as (start & _ & L & S & _ & _ & _ & _ & F).
  destruct (render_compare_do_it_locals _ _ _ _ _ _ _ _ _ _ H X) as (st & Loc).
  rewrite F, S, !length_map, length_seq, Loc.
  assert (LC : List.length (combine origs tests) = List.length origs)
    by (rewrite length_combine, <- L; apply Nat.min_id).
  pose proof (filter_length_le (Compare.valid_pair w) (combine origs tests)) as LE.
  pose proof (compare_loop_counts w (Compare.diff_images_folder folder)
                (Compare.alpha_images_folder folder) st
                (combine origs tests) 0 Compare.loop_start) as C.
  cbv zeta in C. unfold Compare.count_valid in C.
  cbn [Compare.loop_start Compare.result_mse_list Compare.failed_comparisons
       List.length] in C.
  lia.
Qed.

Lemma metric_lists_aligned_witness :
  exists run r,
    Compare.render_compare_do_it Compare.sample_world Compare.sample_folder
      Compare.sample_orig Compare.sample_tester "/r/v1" "/r/v2" "v1" "v2"
    = Ok run /\
    Compare.xml_report run = Some r /\
    List.length (Compare.result_mse_list (Compare.locals run)) =
      List.length (Compare.frames r) /\
    List.length (Compare.result_ssim_list (Compare.locals run)) =
      List.length (Compare.frames r) /\
    (List.length Compare.sample_orig -
     Compare.failed_comparisons (Compare.locals run) <=
     List.length (Compare.frames r))%nat /\
    (List.length (Compare.frames r) <= List.length Compare.sample_orig)%nat.
Proof.
  eexists. eexists.
  split; [vm_compute; reflexivity|]. split; [reflexivity|].
  apply (metric_lists_aligned Compare.sample_world
           Compare.sample_folder Compare.sample_orig Compare.sample_tester
           "/r/v1" "/r/v2" "v1" "v2" _ _ ltac:(vm_compute; reflexivity) eq_refl).
Defined.

(** ** [mean_squared_error] on a uniform difference *)

Lemma sum_squared_diff_shift (d : Z) : forall xs : list Z,
  Compare.sum_squared_diff xs (map (fun v => v + d)%Z xs) =
  (Z.of_nat (List.length xs) * (d * d))%Z.
Proof.
  induction xs as [|x xs IH]; [reflexivity|].
  cbn [map List.length]. rewrite sum_squared_diff_cons, IH. lia.
Qed.

(** For two 8-bit images of the same shape, of at most 2^37 pixels (so
    that the sum of the squares is a number a double holds exactly):
    when every pixel of the second image is the pixel of the first plus
    the same [d], the error is [d] squared, whatever the size. *)
Theorem mean_squared_error_uniform_shift (A B : Compare.gray_image) (d : Z) :
  Compare.is_gray_image A ->
  Compare.is_gray_image B ->
  (Z.of_nat (Compare.rows A * Compare.cols A) <= 2 ^ 37)%Z ->
  Compare.shape A = Compare.shape B ->
  Compare.pixels B = map (fun v => v + d)%Z (Compare.pixels A) ->
  exists q, Compare.mean_squared_error A B = Ok (Compare.Finite q) /\
            q == inject_Z (d * d).
Proof.
  intros (RA & CA & L & _) _ _ S E.
  assert (P : (0 < Compare.rows A * Compare.cols A)%nat) by nia.
  unfold Compare.mean_squared_error, Compare.float_div.
  rewrite (proj2 (shape_eqb_eq A B) S). cbn [negb].
  rewrite E, sum_squared_diff_shift, L.
  destruct (Z.eqb_spec (Z.of_nat (Compare.rows A * Compare.cols A)) 0) as [C|C];
    [lia|].
  eexists. split; [reflexivity|].
  unfold Qeq, inject_Z. cbn [Qnum Qden]. rewrite Z2Pos.id by lia. lia.
Qed.

Lemma mean_squared_error_uniform_shift_witness :
  exists q,
    Compare.mean_squared_error Compare.gray_128 Compare.gray_130
      = Ok (Compare.Finite q) /\ q == inject_Z (2 * 2).
Proof.
  apply (mean_squared_error_uniform_shift Compare.gray_128 Compare.gray_130 2).
  - unfold Compare.is_gray_image. cbn.
    repeat split; try lia; repeat constructor; lia.
  - unfold Compare.is_gray_image. cbn.
    repeat split; try lia; repeat constructor; lia.
  - cbn. lia.
  - reflexivity.
  - reflexivity.
Defined.

(** ** The render tasks and the counters while the pool works *)

Lemma combine_seq_In {A : Type} (d : A) : forall (l : list A) (k i : nat) (x : A),
  In (i, x) (combine (seq k (List.length l)) l) ->
  (k <= i)%nat /\ nth (i - k) l d = x.
Proof.
  induction l as [|a l IH]; intros k i x H; simpl in H; [contradiction|].
  destruct H as [H|H].
  - inversion H; subst. rewrite Nat.sub_diag. split; [lia|reflexivity].
  - destruct (IH _ _ _ H) as [L E]. split; [lia|].
    replace (i - k)%nat with (S (i - S k)) by lia. exact E.
Qed.

Lemma map_fst_combine_seq {A : Type} : forall (l : list A) (k : nat),
  map fst (combine (seq k (List.length l)) l) = seq k (List.length l).
Proof.
  induction l as [|a l IH]; intros k; simpl; [reflexivity|]. now rewrite IH.
Qed.

Lemma map_flat_map {A B C : Type} (f : B -> C) (g : A -> list B) (l : list A) :
  map f (flat_map g l) = flat_map (fun a => map f (g a)) l.
Proof.
  induction l as [|a l IH]; simpl; [reflexivity|]. now rewrite map_app, IH.
Qed.

Lemma flat_map_via_map {A B C : Type} (f : A -> B) (g : B -> list C) (l : list A) :
  flat_map (fun a => g (f a)) l = flat_map g (map f l).
Proof.
  induction l as [|a l IH]; simpl; [reflexivity|]. now rewrite IH.
Qed.

(** When the name list is as long as the path list and the frame
    folder list as long as the JSON file list, as the two stages that
    produce them make them, [render_tasks] holds every (version, JSON
    file) pair once, versions outside and files inside; its length is
    the [total_renders] each task carries, and each task holds the
    path, name and frame folder found at its two indices. *)
Theorem make_render_tasks_pairs (vp vn jf ff : list string) (ver : string) :
  List.length vn = List.length vp ->
  List.length ff = List.length jf ->
  let tasks := Runner.make_render_tasks vp vn jf ff ver in
  List.length tasks = (List.length vp * List.length jf)%nat /\
  map (fun t => (Runner.version_index t, Runner.json_index t)) tasks =
    list_prod (seq 0 (List.length vp)) (seq 0 (List.length jf)) /\
  Forall (fun t =>
            Runner.total_renders t = List.length tasks /\
            nth_error vp (Runner.version_index t) =
              Some (Runner.freedview_ver_path t) /\
            nth_error vn (Runner.version_index t) =
              Some (Runner.freedview_ver_name t) /\
            nth_error jf (Runner.json_index t) =
              Some (Runner.json_file_path t) /\
            nth_error ff (Runner.json_index t) =
              Some (Runner.folder_frame t) /\
            Runner.freedview_ver t = ver) tasks.
Proof.
  intros Lvn Lff. cbv zeta.
  assert (P : map (fun t => (Runner.version_index t, Runner.json_index t))
                (Runner.make_render_tasks vp vn jf ff ver) =
              list_prod (seq 0 (List.length vp)) (seq 0 (List.length jf))).
  { unfold Runner.make_render_tasks. rewrite map_flat_map.
    transitivity (list_prod (map fst (combine (seq 0 (List.length vp)) vp))
                            (map fst (combine (seq 0 (List.length jf)) jf)));
      [|now rewrite !map_fst_combine_seq].
    generalize (combine (seq 0 (List.length vp)) vp) as vs.
    intros vs. induction vs as [|iv vs IH]; simpl; [reflexivity|].
    rewrite IH. f_equal. rewrite !map_map. reflexivity. }
  assert (L : List.length (Runner.make_render_tasks vp vn jf ff ver) =
              (List.length vp * List.length jf)%nat).
  { rewrite <- (length_map (fun t => (Runner.version_index t, Runner.json_index t))),
      P, length_prod, !length_seq. reflexivity. }
  split; [exact L|]. split; [exact P|].
  apply Forall_forall. intros t Ht. rewrite L.
  unfold Runner.make_render_tasks in Ht. apply in_flat_map in Ht.
  destruct Ht as ([i v] & Hv & Ht). apply in_map_iff in Ht.
  destruct Ht as ([x j] & <- & Hj). cbn.
  destruct (combine_seq_In "" _ _ _ _ Hv) as [_ Ev].
  destruct (combine_seq_In "" _ _ _ _ Hj) as [_ Ej].
  rewrite Nat.sub_0_r in Ev, Ej.
  assert (Bi : (i < List.length vp)%nat)
    by (apply in_combine_l, in_seq in Hv; lia).
  assert (Bx : (x < List.length jf)%nat)
    by (apply in_combine_l, in_seq in Hj; lia).
  split; [reflexivity|].
  split; [rewrite <- Ev; apply nth_error_nth'; exact Bi|].
  split; [apply nth_error_nth'; lia|].
  split; [rewrite <- Ej; apply nth_error_nth'; exact Bx|].
  split; [apply nth_error_nth'; lia|reflexivity].
Qed.

Lemma make_render_tasks_pairs_witness :
  map (fun t => (Runner.version_index t, Runner.json_index t,
                 Runner.freedview_ver_name t, Runner.folder_frame t))
      (Runner.make_render_tasks ["/v/a"; "/v/b"] ["a"; "b"]
         ["/t/F1/j"; "/t/F2/j"; "/t/F3/j"] ["/t/F1"; "/t/F2"; "/t/F3"]
         "a_VS_b") =
    [(0, 0, "a", "/t/F1"); (0, 1, "a", "/t/F2"); (0, 2, "a", "/t/F3");
     (1, 0, "b", "/t/F1"); (1, 1, "b", "/t/F2"); (1, 2, "b", "/t/F3")]%nat /\
  List.length
    (Runner.make_render_tasks ["/v/a"; "/v/b"] ["a"; "b"]
       ["/t/F1/j"; "/t/F2/j"; "/t/F3/j"] ["/t/F1"; "/t/F2"; "/t/F3"]
       "a_VS_b") = (2 * 3)%nat.
Proof.
  split; [reflexivity|].
  exact (proj1 (make_render_tasks_pairs ["/v/a"; "/v/b"] ["a"; "b"]
                  ["/t/F1/j"; "/t/F2/j"; "/t/F3/j"] ["/t/F1"; "/t/F2"; "/t/F3"]
                  "a_VS_b" eq_refl eq_refl)).
Defined.

(** While the pool works the two result counters never run ahead of
    [_render_count], and [_render_count] never passes the number of
    submitted tasks: the started tasks are those running, those
    finished and not collected, and those counted as success or
    failure. *)
Theorem result_counters_never_run_ahead (max_workers : nat)
    (render_single_task : Runner.render_task -> Runner.task_result)
    (render_tasks : list Runner.render_task)
    (schedule : list Runner.action) (s : Runner.pool) :
  Runner.execute max_workers render_single_task
    (Runner.submit_all render_tasks) schedule = Some s ->
  (Runner.successful_renders s + Runner.failed_renders s +
   List.length (Runner.running s) + List.length (Runner.finished s) =
   Runner.render_count s)%nat /\
  (Runner.successful_renders s + Runner.failed_renders s <=
   Runner.render_count s)%nat /\
  (Runner.render_count s <= List.length render_tasks)%nat.
Proof.
  intros H. apply execute_preserves in H. destruct H as (H1 & H2 & _).
  unfold Runner.in_flight in H1. simpl in H1, H2. lia.
Qed.

Lemma result_counters_never_run_ahead_witness :
  exists s,
    Runner.execute 2 Runner.sample_result (Runner.submit_all Runner.sample_tasks)
      [Runner.Start; Runner.Start; Runner.Finish 1; Runner.Collect 0] = Some s /\
    (Runner.successful_renders s + Runner.failed_renders s +
     List.length (Runner.running s) + List.length (Runner.finished s) =
     Runner.render_count s)%nat /\
    (Runner.successful_renders s + Runner.failed_renders s <=
     Runner.render_count s)%nat /\
    (Runner.render_count s <= List.length Runner.sample_tasks)%nat.
Proof.
  eexists. split; [reflexivity|].
  apply (result_counters_never_run_ahead 2 Runner.sample_result
           Runner.sample_tasks
           [Runner.Start; Runner.Start; Runner.Finish 1; Runner.Collect 0]).
  reflexivity.
Defined.

(** ** Names of the rendered images *)

Lemma string_rev_cons (c : ascii) (cur : list ascii) :
  string_rev (c :: cur) = (string_rev cur ++ String c "")%string.
Proof.
  unfold string_rev. simpl.
  induction (rev cur) as [|a l IH]; simpl; [reflexivity|]. now rewrite IH.
Qed.

Lemma append_assoc (a b c : string) :
  ((a ++ b) ++ c)%string = (a ++ (b ++ c))%string.
Proof. induction a as [|x a IH]; simpl; [reflexivity|]. now rewrite IH. Qed.

Lemma append_nil_r (a : string) : (a ++ "")%string = a.
Proof. induction a as [|x a IH]; simpl; [reflexivity|]. now rewrite IH. Qed.



















(** ** Splitting and joining on a separator *)

Lemma split_str_aux_nonempty (sep : string) : forall s k cur,
  split_str_aux sep s k cur <> [].
Proof.
  induction s as [|c s IH]; intros k cur; simpl; [discriminate|].
  destruct k; [|apply IH].
  destruct (is_prefix sep (String c s)); [discriminate|apply IH].
Qed.

Lemma concat_cons (sep x : string) (l : list string) :
  l <> [] -> String.concat sep (x :: l) = (x ++ sep ++ String.concat sep l)%string.
Proof. destruct l; [congruence|reflexivity]. Qed.

Lemma is_prefix_drop : forall p s,
  is_prefix p s = true -> s = (p ++ string_drop (String.length p) s)%string.
Proof.
  induction p as [|a p IH]; intros s H; [reflexivity|].
  destruct s as [|b s]; [discriminate|]. simpl in H.
  apply andb_true_iff in H. destruct H as [E H].
  apply Ascii.eqb_eq in E. subst b. simpl. f_equal. now apply IH.
Qed.

(** Joining the pieces of a split with the separator gives the text
    back; in the middle of a separator the characters still to pass are
    not part of any piece. *)
Lemma concat_split_str_aux (sep : string) :
  sep <> EmptyString ->
  forall s k cur,
  String.concat sep (split_str_aux sep s k cur) =
  (string_rev cur ++ string_drop k s)%string.
Proof.
  intros NE. induction s as [|c s IH]; intros k cur.
  - destruct k; simpl; now rewrite append_nil_r.
  - destruct k as [|k]; cbn [split_str_aux string_drop]; [|apply IH].
    destruct (is_prefix sep (String c s)) eqn:P.
    + rewrite concat_cons by apply split_str_aux_nonempty.
      rewrite IH. cbn [string_rev rev string_of_list_ascii String.append].
      pose proof (is_prefix_drop _ _ P) as E.
      destruct sep as [|a sep']; [congruence|].
      cbn [String.length string_drop] in E. cbn [String.length].
      replace (S (String.length sep') - 1)%nat with (String.length sep') by lia.
      now rewrite <- E.
    + rewrite IH, string_rev_cons, append_assoc. reflexivity.
Qed.

Lemma concat_split_str (sep s : string) :
  sep <> EmptyString -> String.concat sep (split_str sep s) = s.
Proof.
  intros NE. unfold split_str. now rewrite (concat_split_str_aux sep NE).
Qed.

Lemma is_prefix_app (p x y : string) :
  (String.length p <= String.length x)%nat ->
  is_prefix p (x ++ y) = is_prefix p x.
Proof.
  revert x. induction p as [|a p IH]; intros x L; [reflexivity|].
  destruct x as [|b x]; [simpl in L; lia|]. simpl.
  rewrite IH; [reflexivity|simpl in L; lia].
Qed.

Lemma occurs_nil_prefix (sep s : string) :
  occurs sep s = false -> is_prefix sep s = false.
Proof.
  destruct s; simpl; [auto|]. intros H. now apply orb_false_iff in H.
Qed.

(** Without an occurrence of the separator the split has one piece. *)
Lemma split_str_aux_no_occurrence (sep : string) : forall s cur,
  occurs sep s = false ->
  split_str_aux sep s 0 cur = [(string_rev cur ++ s)%string].
Proof.
  induction s as [|c s IH]; intros cur H.
  - simpl. now rewrite append_nil_r.
  - cbn [occurs] in H. apply orb_false_iff in H. destruct H as [P O].
    cbn [split_str_aux]. rewrite P, (IH _ O), string_rev_cons, append_assoc.
    reflexivity.
Qed.

Lemma split_str_aux_skip (sep : string) : forall k s cur t,
  String.length s = k ->
  split_str_aux sep (s ++ t) k cur = split_str_aux sep t 0 cur.
Proof.
  induction k as [|k IH]; intros s cur t L.
  - destruct s; [reflexivity|discriminate].
  - destruct s as [|c s]; [discriminate|]. simpl. apply IH.
    simpl in L. lia.
Qed.

Lemma is_prefix_refl_app (p t : string) : is_prefix p (p ++ t) = true.
Proof.
  induction p as [|a p IH]; [reflexivity|]. simpl.
  now rewrite Ascii.eqb_refl, IH.
Qed.

(** At an occurrence of the separator a piece ends and the next begins. *)
Lemma split_str_aux_at_separator (sep b : string) (cur : list ascii) :
  sep <> EmptyString -> occurs sep b = false ->
  split_str_aux sep (sep ++ b) 0 cur = [string_rev cur; b].
Proof.
  intros NE Hb. pose proof (is_prefix_refl_app sep b) as P.
  destruct sep as [|h tl]; [congruence|].
  change ((String h tl ++ b)%string) with (String h (tl ++ b)) in *.
  cbn [split_str_aux]. rewrite P. cbn [String.length].
  replace (S (String.length tl) - 1)%nat with (String.length tl) by lia.
  rewrite (split_str_aux_skip _ _ tl [] b eq_refl).
  rewrite (split_str_aux_no_occurrence _ _ _ Hb). reflexivity.
Qed.

(** One occurrence of ["_VS_"], after [a]: two pieces. *)
Lemma split_version_pair (b : string) : forall a cur,
  occurs "_VS_" (a ++ "_VS") = false ->
  occurs "_VS_" b = false ->
  split_str_aux "_VS_" (a ++ "_VS_" ++ b) 0 cur =
  [(string_rev cur ++ a)%string; b].
Proof.
  induction a as [|c a IH]; intros cur Ha Hb.
  - change (("" ++ "_VS_" ++ b)%string) with ("_VS_" ++ b)%string.
    rewrite (split_str_aux_at_separator "_VS_" b cur ltac:(discriminate) Hb).
    now rewrite append_nil_r.
  - change ((String c a ++ "_VS")%string) with (String c (a ++ "_VS")) in Ha.
    cbn [occurs] in Ha. apply orb_false_iff in Ha. destruct Ha as [P O].
    assert (P' : is_prefix "_VS_" (String c (a ++ "_VS_" ++ b)) = false).
    { change (String c (a ++ "_VS_" ++ b))
        with ((String c a ++ ("_VS" ++ ("_" ++ b)))%string).
      rewrite <- append_assoc, is_prefix_app; [exact P|].
      rewrite length_append. simpl. lia. }
    change ((String c a ++ "_VS_" ++ b)%string)
      with (String c (a ++ "_VS_" ++ b)).
    cbn [split_str_aux]. rewrite P', (IH _ O Hb), string_rev_cons, append_assoc.
    reflexivity.
Qed.

(** The version string of the INI file.  A pair that is accepted is the
    text before and the text after a ["_VS_"] of the string; a string in
    which ["_VS_"] occurs once, after [a] and before [b], is accepted as
    [(a, b)]; a string without ["_VS_"] is refused. *)
Theorem parse_version_pair_spec :
  (forall v a b, parse_version_pair v = Some (a, b) ->
     v = (a ++ "_VS_" ++ b)%string) /\
  (forall a b,
     occurs "_VS_" (a ++ "_VS") = false -> occurs "_VS_" b = false ->
     parse_version_pair (a ++ "_VS_" ++ b) = Some (a, b)) /\
  (forall v, occurs "_VS_" v = false -> parse_version_pair v = None).
Proof.
  unfold parse_version_pair. split; [|split].
  - intros v a b H.
    pose proof (concat_split_str "_VS_" v ltac:(discriminate)) as R.
    destruct (split_str "_VS_" v) as [|x [|y [|z l]]]; try discriminate.
    injection H as Hx Hy. rewrite <- Hx, <- Hy, <- R. reflexivity.
  - intros a b Ha Hb. unfold split_str.
    rewrite (split_version_pair b a [] Ha Hb). reflexivity.
  - intros v H. unfold split_str.
    rewrite (split_str_aux_no_occurrence _ _ _ H). reflexivity.
Qed.

Lemma parse_version_pair_spec_witness :
  parse_version_pair "v1_VS_v2" = Some ("v1", "v2") /\
  "v1_VS_v2" = ("v1" ++ "_VS_" ++ "v2")%string /\
  parse_version_pair "v1_VS_v2_VS_v3" = None /\
  parse_version_pair "v1-v2" = None.
Proof.
  destruct parse_version_pair_spec as (S & C & N).
  split; [apply (C "v1" "v2"); reflexivity|].
  split; [apply (S "v1_VS_v2" "v1" "v2"); reflexivity|].
  split; [reflexivity|apply (N "v1-v2"); reflexivity].
Defined.

(** [str.replace] as the pipeline uses it to turn a frame folder into
    its results folder: a path in which the old text does not occur
    comes back unchanged, and so does any text when the old text is
    replaced by itself. *)
Theorem replace_str_identity (old new s : string) :
  old <> EmptyString ->
  Compare.replace_str old old s = s /\
  (occurs old s = false -> Compare.replace_str old new s = s).
Proof.
  intros NE. unfold Compare.replace_str. split.
  - now apply concat_split_str.
  - intros H. unfold split_str.
    rewrite (split_str_aux_no_occurrence _ _ _ H). reflexivity.
Qed.

Lemma replace_str_identity_witness :
  "testSets" <> EmptyString /\
  Compare.replace_str "testSets" "testSets" "/d/testSets/E/S/F1"
    = "/d/testSets/E/S/F1" /\
  (occurs "testSets" "/d/frames/E/S/F1" = false ->
   Compare.replace_str "testSets" "testSets_results" "/d/frames/E/S/F1"
     = "/d/frames/E/S/F1").
Proof.
  split; [discriminate|].
  split.
  - exact (proj1 (replace_str_identity "testSets" "testSets"
                    "/d/testSets/E/S/F1" ltac:(discriminate))).
  - exact (proj2 (replace_str_identity "testSets" "testSets_results"
                    "/d/frames/E/S/F1" ltac:(discriminate))).
Defined.

(** ** Reading the INI file *)

Lemma values_of_absent (c : Ini.config) (own : Ini.option_table) (tag : string) :
  Ini.lookup own (Ini.lower tag) = None ->
  Ini.lookup (Ini.defaults c) (Ini.lower tag) = None ->
  Ini.values_of c own tag = [].
Proof.
  intros O D. unfold Ini.values_of, Ini.has_option. now rewrite O, D.
Qed.

(** [getDataINI] never returns an empty list, so the callers' [[0]] is
    always defined.  It returns the one-element error list for an empty
    or missing path, for a file that cannot be read, and for a tag that
    neither a section nor [DEFAULT] holds. *)
Theorem get_data_ini_never_empty (d : Ini.disk) (file_path tag_name : string)
    (file_check : bool) :
  Ini.get_data_ini_impl d file_path tag_name file_check <> [] /\
  (file_path = EmptyString \/ Ini.os_path_exists d file_path = false \/
   Ini.read_config d file_path = None ->
   Ini.get_data_ini_impl d file_path tag_name file_check = [Ini.ERROR_VALUE]) /\
  (forall c,
     Ini.read_config d file_path = Some c ->
     Ini.lookup (Ini.defaults c) (Ini.lower tag_name) = None ->
     (forall section, In section (Ini.sections c) ->
        Ini.lookup (snd section) (Ini.lower tag_name) = None) ->
     Ini.get_data_ini_impl d file_path tag_name file_check = [Ini.ERROR_VALUE]).
Proof.
  unfold Ini.get_data_ini_impl. split; [|split].
  - destruct file_path as [|ch rest]; [discriminate|].
    destruct (negb _); [discriminate|].
    destruct (Ini.read_config d _) as [c|]; [|discriminate].
    cbv zeta. destruct (file_check && _); [discriminate|].
    match goal with |- context [match ?dl with [] => [Ini.ERROR_VALUE] | _ => _ end] =>
      destruct dl; discriminate end.
  - intros [->|[E|E]]; [reflexivity| |].
    + destruct file_path; [reflexivity|]. now rewrite E.
    + destruct file_path; [reflexivity|]. rewrite E.
      now destruct (negb _).
  - intros c R D Own. destruct file_path as [|ch rest]; [reflexivity|].
    destruct (negb _); [reflexivity|]. rewrite R. cbv zeta.
    assert (FS : flat_map (fun section => Ini.values_of c (snd section) tag_name)
                   (Ini.sections c) = []).
    { revert Own. induction (Ini.sections c) as [|s l IH]; intros Own;
        [reflexivity|].
      cbn [flat_map].
      rewrite (values_of_absent c (snd s) tag_name (Own s (or_introl eq_refl)) D).
      apply IH. intros sec Hs. apply Own. now right. }
    rewrite FS, (values_of_absent c [] tag_name eq_refl D).
    now destruct file_check.
Qed.

Lemma get_data_ini_never_empty_witness :
  Ini.get_data_ini_impl Ini.sample_disk "/etc/tester.ini" "setTestPath" false
    = ["/d/testSets"] /\
  Ini.get_data_ini_impl Ini.sample_disk "/etc/tester.ini" "missing" false
    = [Ini.ERROR_VALUE].
Proof.
  split; [reflexivity|].
  apply (proj2 (proj2 (get_data_ini_never_empty Ini.sample_disk
                         "/etc/tester.ini" "missing" false))
           Ini.sample_config).
  - reflexivity.
  - reflexivity.
  - intros section [<-|[<-|[]]]; reflexivity.
Defined.

(** With the file check on, every path [getDataINI] returns exists;
    one missing path turns the whole answer into the error list. *)
Theorem get_data_ini_file_check (d : Ini.disk) (file_path tag_name : string) :
  (forall item,
     In item (Ini.get_data_ini_impl d file_path tag_name true) ->
     item = Ini.ERROR_VALUE \/ Ini.os_path_exists d item = true) /\
  (forall item,
     In item (Ini.get_data_ini_impl d file_path tag_name false) ->
     Ini.os_path_exists d item = false ->
     Ini.get_data_ini_impl d file_path tag_name true = [Ini.ERROR_VALUE]).
Proof.
  unfold Ini.get_data_ini_impl.
  destruct file_path as [|ch rest];
    [split; [intros item [<-|[]]; auto|reflexivity]|].
  destruct (negb (Ini.os_path_exists d (String ch rest)));
    [split; [intros item [<-|[]]; auto|reflexivity]|].
  destruct (Ini.read_config d _) as [c|];
    [|split; [intros item [<-|[]]; auto|reflexivity]].
  cbv zeta. cbn [andb].
  match goal with
  | |- context [forallb (Ini.os_path_exists d) ?dl] =>
      destruct (forallb (Ini.os_path_exists d) dl) eqn:F; cbn [negb];
      destruct dl as [|x l] eqn:E
  end.
  - split; [intros item [<-|[]]; auto|reflexivity].
  - split.
    + intros item Hin. right. exact (proj1 (forallb_forall _ _) F item Hin).
    + intros item Hin Hno.
      rewrite (proj1 (forallb_forall _ _) F item Hin) in Hno. discriminate.
  - discriminate.
  - split; [intros item [<-|[]]; auto|reflexivity].
Qed.

Lemma get_data_ini_file_check_witness :
  Ini.get_data_ini_impl Ini.sample_disk "/etc/tester.ini" "setTestPath" true
    = ["/d/testSets"] /\
  Ini.get_data_ini_impl Ini.sample_disk "/etc/tester.ini" "freedviewVer" false
    = ["v1_VS_v2"] /\
  Ini.get_data_ini_impl Ini.sample_disk "/etc/tester.ini" "freedviewVer" true
    = [Ini.ERROR_VALUE].
Proof.
  split; [reflexivity|]. split; [reflexivity|].
  apply (proj2 (get_data_ini_file_check Ini.sample_disk "/etc/tester.ini"
                  "freedviewVer") "v1_VS_v2").
  - left. reflexivity.
  - reflexivity.
Defined.

Lemma values_of_default_only (c : Ini.config) (own : Ini.option_table)
    (tag v : string) :
  Ini.lookup own (Ini.lower tag) = None ->
  Ini.lookup (Ini.defaults c) (Ini.lower tag) = Some v ->
  Ini.has_percent v = false ->
  Ini.values_of c own tag = [v].
Proof.
  intros O D P. unfold Ini.values_of, Ini.has_option, Ini.get.
  now rewrite O, D, P.
Qed.

(** A key that only [DEFAULT] holds is returned once for every section
    of the file, since every section inherits it; the fallback that
    reads [DEFAULT] itself gives the value once, in a file without
    sections. *)
Theorem get_data_ini_default_key (d : Ini.disk) (file_path tag_name : string)
    (c : Ini.config) (v : string) :
  file_path <> EmptyString ->
  Ini.os_path_exists d file_path = true ->
  Ini.read_config d file_path = Some c ->
  (forall section, In section (Ini.sections c) ->
     Ini.lookup (snd section) (Ini.lower tag_name) = None) ->
  Ini.lookup (Ini.defaults c) (Ini.lower tag_name) = Some v ->
  Ini.has_percent v = false ->
  Ini.get_data_ini_impl d file_path tag_name false =
  repeat v (Nat.max 1 (List.length (Ini.sections c))).
Proof.
  intros NE P R Own Def Pc. unfold Ini.get_data_ini_impl.
  destruct file_path as [|ch rest]; [congruence|].
  rewrite P, R. cbn [negb andb]. cbv zeta.
  assert (FS : flat_map (fun section => Ini.values_of c (snd section) tag_name)
                 (Ini.sections c) = repeat v (List.length (Ini.sections c))).
  { revert Own. induction (Ini.sections c) as [|s l IH]; intros Own;
      [reflexivity|].
    cbn [flat_map List.length repeat].
    rewrite (values_of_default_only c (snd s) tag_name v
               (Own s (or_introl eq_refl)) Def Pc).
    rewrite IH; [reflexivity|]. intros sec Hs. apply Own. now right. }
  rewrite FS.
  destruct (Ini.sections c) as [|s l]; cbn [List.length repeat Nat.max].
  - now rewrite (values_of_default_only c [] tag_name v eq_refl Def Pc).
  - destruct (List.length l); reflexivity.
Qed.

Lemma get_data_ini_default_key_witness :
  Ini.get_data_ini_impl Ini.sample_disk "/etc/tester.ini" "camera" false
  = ["renderCAM"; "renderCAM"].
Proof.
  apply (get_data_ini_default_key Ini.sample_disk "/etc/tester.ini" "camera"
           Ini.sample_config "renderCAM").
  - discriminate.
  - reflexivity.
  - reflexivity.
  - intros section [<-|[<-|[]]]; reflexivity.
  - reflexivity.
  - reflexivity.
Defined.

Lemma lower_char_idem (c : ascii) :
  Ini.lower_char (Ini.lower_char c) = Ini.lower_char c.
Proof. destruct c as [[] [] [] [] [] [] [] []]; reflexivity. Qed.

Lemma lower_idem (s : string) : Ini.lower (Ini.lower s) = Ini.lower s.
Proof.
  induction s as [|c s IH]; [reflexivity|].
  cbn [Ini.lower]. now rewrite lower_char_idem, IH.
Qed.

(** Tag names are matched without regard to case: two spellings
    of a tag that agree in lower case get the same answer, and so does
    the lower-case spelling itself. *)
Theorem get_data_ini_case_insensitive (d : Ini.disk)
    (file_path tag_name other : string) (file_check : bool) :
  Ini.lower other = Ini.lower tag_name ->
  Ini.get_data_ini_impl d file_path other file_check =
  Ini.get_data_ini_impl d file_path tag_name file_check /\
  Ini.get_data_ini_impl d file_path (Ini.lower tag_name) file_check =
  Ini.get_data_ini_impl d file_path tag_name file_check.
Proof.
  assert (V : forall t u c own, Ini.lower t = Ini.lower u ->
            Ini.values_of c own t = Ini.values_of c own u).
  { intros t u c own E. unfold Ini.values_of, Ini.has_option, Ini.get.
    now rewrite E. }
  assert (G : forall t u, Ini.lower t = Ini.lower u ->
            Ini.get_data_ini_impl d file_path t file_check =
            Ini.get_data_ini_impl d file_path u file_check).
  { intros t u E. unfold Ini.get_data_ini_impl.
    destruct file_path as [|ch rest]; [reflexivity|].
    destruct (negb _); [reflexivity|].
    destruct (Ini.read_config d _) as [c|]; [|reflexivity].
    cbv zeta. rewrite (V t u c [] E).
    replace (flat_map (fun section => Ini.values_of c (snd section) t)
               (Ini.sections c))
      with (flat_map (fun section => Ini.values_of c (snd section) u)
               (Ini.sections c)); [reflexivity|].
    apply flat_map_ext. intros a. symmetry. apply V, E. }
  intros E. split; [exact (G _ _ E)|]. apply G, lower_idem.
Qed.

Lemma get_data_ini_case_insensitive_witness :
  Ini.get_data_ini_impl Ini.sample_disk "/etc/tester.ini" "SETTESTPATH" false =
  Ini.get_data_ini_impl Ini.sample_disk "/etc/tester.ini" "setTestPath" false.
Proof.
  exact (proj1 (get_data_ini_case_insensitive Ini.sample_disk "/etc/tester.ini"
                  "setTestPath" "SETTESTPATH" false eq_refl)).
Defined.
